(** * BetterMousekeys: the keyboard hook, the physics loop and the click
      translator of [src/main.cpp], embedded in Rocq.

    The program has two pieces that share a handful of [std::atomic<bool>]
    globals: the low-level keyboard hook procedure, called once per key
    transition, and the physics loop, which wakes up at a fixed rate, reads the
    globals and moves the cursor.  Both are modelled as functions on an explicit
    record of the globals.  Each call of the hook and each iteration of the loop
    is taken as one step on that record; the interleaving of the two threads
    inside a step is not modelled.

    Numbers are modelled as the code has them: [float] is IEEE-754 binary32 and
    [double] is binary64, both with round-to-nearest-even, through the
    executable specification of the Standard Library ([SpecFloat]). *)

From Stdlib Require Import ZArith Bool List Lia SpecFloat.
Import ListNotations.
Open Scope Z_scope.

(** ** Constants of [windows.h] used by the program *)

Module Win32.
Definition WM_KEYDOWN    : Z := 0x0100.
Definition WM_KEYUP      : Z := 0x0101.
Definition WM_SYSKEYDOWN : Z := 0x0104.
Definition WM_SYSKEYUP   : Z := 0x0105.

Definition VK_CAPITAL : Z := 0x14.
Definition VK_LEFT    : Z := 0x25.
Definition VK_UP      : Z := 0x26.
Definition VK_RIGHT   : Z := 0x27.
Definition VK_DOWN    : Z := 0x28.
Definition VK_LSHIFT  : Z := 0xA0.
Definition VK_RSHIFT  : Z := 0xA1.

(** Character literals used as virtual-key codes. *)
Definition chr_H : Z := 72.
Definition chr_J : Z := 74.
Definition chr_K : Z := 75.
Definition chr_L : Z := 76.
Definition chr_X : Z := 88.
Definition chr_Z : Z := 90.
End Win32.
Import Win32.

Definition LEFT_CLICK_KEY  : Z := chr_Z.
Definition RIGHT_CLICK_KEY : Z := chr_X.
Definition UPDATES_PER_SEC : Z := 120.

(** ** The shared globals *)

Record Globals : Type := mkGlobals {
  key_up : bool; key_down : bool; key_left : bool; key_right : bool;
  key_k : bool; key_h : bool; key_j : bool; key_l : bool;
  leftClickPressed : bool; rightClickPressed : bool;
  shiftPressed : bool;
  g_prevLeft : bool; g_prevRight : bool;
  enabled : bool;
  running : bool
}.

(** The initial values of the globals, as declared. *)
Definition globals_init : Globals :=
  mkGlobals false false false false false false false false
            false false false false false false true.

(** [x.store(b)] for each global the program writes. *)
Definition store_key_up (b : bool) (g : Globals) : Globals :=
  mkGlobals b (key_down g) (key_left g) (key_right g) (key_k g) (key_h g)
    (key_j g) (key_l g) (leftClickPressed g) (rightClickPressed g)
    (shiftPressed g) (g_prevLeft g) (g_prevRight g) (enabled g) (running g).
Definition store_key_down (b : bool) (g : Globals) : Globals :=
  mkGlobals (key_up g) b (key_left g) (key_right g) (key_k g) (key_h g)
    (key_j g) (key_l g) (leftClickPressed g) (rightClickPressed g)
    (shiftPressed g) (g_prevLeft g) (g_prevRight g) (enabled g) (running g).
Definition store_key_left (b : bool) (g : Globals) : Globals :=
  mkGlobals (key_up g) (key_down g) b (key_right g) (key_k g) (key_h g)
    (key_j g) (key_l g) (leftClickPressed g) (rightClickPressed g)
    (shiftPressed g) (g_prevLeft g) (g_prevRight g) (enabled g) (running g).
Definition store_key_right (b : bool) (g : Globals) : Globals :=
  mkGlobals (key_up g) (key_down g) (key_left g) b (key_k g) (key_h g)
    (key_j g) (key_l g) (leftClickPressed g) (rightClickPressed g)
    (shiftPressed g) (g_prevLeft g) (g_prevRight g) (enabled g) (running g).
Definition store_key_k (b : bool) (g : Globals) : Globals :=
  mkGlobals (key_up g) (key_down g) (key_left g) (key_right g) b (key_h g)
    (key_j g) (key_l g) (leftClickPressed g) (rightClickPressed g)
    (shiftPressed g) (g_prevLeft g) (g_prevRight g) (enabled g) (running g).
Definition store_key_h (b : bool) (g : Globals) : Globals :=
  mkGlobals (key_up g) (key_down g) (key_left g) (key_right g) (key_k g) b
    (key_j g) (key_l g) (leftClickPressed g) (rightClickPressed g)
    (shiftPressed g) (g_prevLeft g) (g_prevRight g) (enabled g) (running g).
Definition store_key_j (b : bool) (g : Globals) : Globals :=
  mkGlobals (key_up g) (key_down g) (key_left g) (key_right g) (key_k g)
    (key_h g) b (key_l g) (leftClickPressed g) (rightClickPressed g)
    (shiftPressed g) (g_prevLeft g) (g_prevRight g) (enabled g) (running g).
Definition store_key_l (b : bool) (g : Globals) : Globals :=
  mkGlobals (key_up g) (key_down g) (key_left g) (key_right g) (key_k g)
    (key_h g) (key_j g) b (leftClickPressed g) (rightClickPressed g)
    (shiftPressed g) (g_prevLeft g) (g_prevRight g) (enabled g) (running g).
Definition store_leftClickPressed (b : bool) (g : Globals) : Globals :=
  mkGlobals (key_up g) (key_down g) (key_left g) (key_right g) (key_k g)
    (key_h g) (key_j g) (key_l g) b (rightClickPressed g)
    (shiftPressed g) (g_prevLeft g) (g_prevRight g) (enabled g) (running g).
Definition store_rightClickPressed (b : bool) (g : Globals) : Globals :=
  mkGlobals (key_up g) (key_down g) (key_left g) (key_right g) (key_k g)
    (key_h g) (key_j g) (key_l g) (leftClickPressed g) b
    (shiftPressed g) (g_prevLeft g) (g_prevRight g) (enabled g) (running g).
Definition store_shiftPressed (b : bool) (g : Globals) : Globals :=
  mkGlobals (key_up g) (key_down g) (key_left g) (key_right g) (key_k g)
    (key_h g) (key_j g) (key_l g) (leftClickPressed g) (rightClickPressed g)
    b (g_prevLeft g) (g_prevRight g) (enabled g) (running g).
Definition store_g_prevLeft (b : bool) (g : Globals) : Globals :=
  mkGlobals (key_up g) (key_down g) (key_left g) (key_right g) (key_k g)
    (key_h g) (key_j g) (key_l g) (leftClickPressed g) (rightClickPressed g)
    (shiftPressed g) b (g_prevRight g) (enabled g) (running g).
Definition store_g_prevRight (b : bool) (g : Globals) : Globals :=
  mkGlobals (key_up g) (key_down g) (key_left g) (key_right g) (key_k g)
    (key_h g) (key_j g) (key_l g) (leftClickPressed g) (rightClickPressed g)
    (shiftPressed g) (g_prevLeft g) b (enabled g) (running g).
Definition store_enabled (b : bool) (g : Globals) : Globals :=
  mkGlobals (key_up g) (key_down g) (key_left g) (key_right g) (key_k g)
    (key_h g) (key_j g) (key_l g) (leftClickPressed g) (rightClickPressed g)
    (shiftPressed g) (g_prevLeft g) (g_prevRight g) b (running g).
Definition store_running (b : bool) (g : Globals) : Globals :=
  mkGlobals (key_up g) (key_down g) (key_left g) (key_right g) (key_k g)
    (key_h g) (key_j g) (key_l g) (leftClickPressed g) (rightClickPressed g)
    (shiftPressed g) (g_prevLeft g) (g_prevRight g) (enabled g) b.

(** ** The keyboard hook *)

(** What the hook procedure returns: [return 1] hides the event from the rest
    of the system, [return CallNextHookEx(...)] hands it on. *)
Inductive HookResult : Type :=
| Return1
| CallNextHookEx.

(** One call of the hook: [nCode], [wParam] and [kb->vkCode]. *)
Record KeyEvent : Type := mkKeyEvent {
  nCode : Z;
  wParam : Z;
  vkCode : Z
}.

Definition isDown (ev : KeyEvent) : bool :=
  (wParam ev =? WM_KEYDOWN) || (wParam ev =? WM_SYSKEYDOWN).
Definition isUp (ev : KeyEvent) : bool :=
  (wParam ev =? WM_KEYUP) || (wParam ev =? WM_SYSKEYUP).

(** The body of every [case] of the switch:
    [if (isDown) x.store(true); if (isUp) x.store(false);]. *)
Definition track (ev : KeyEvent) (store : bool -> Globals -> Globals)
                 (g : Globals) : Globals :=
  let g1 := if isDown ev then store true g else g in
  if isUp ev then store false g1 else g1.

(** The [else] branch of the hook: the stores done while the controller is
    disabled. *)
Definition clear_keys (g : Globals) : Globals :=
  store_shiftPressed false
    (store_key_l false (store_key_h false (store_key_j false
      (store_key_k false (store_key_right false (store_key_left false
        (store_key_down false (store_key_up false g)))))))).

Definition LowLevelKeyboardProc (g : Globals) (ev : KeyEvent)
  : Globals * HookResult :=
  if nCode ev <? 0 then (g, CallNextHookEx)
  else if isDown ev && ((vkCode ev =? VK_RSHIFT) || (vkCode ev =? VK_CAPITAL))
  then (store_enabled (negb (enabled g)) g, Return1)
  else if enabled g then
    if vkCode ev =? VK_UP then (track ev store_key_up g, Return1)
    else if vkCode ev =? VK_DOWN then (track ev store_key_down g, Return1)
    else if vkCode ev =? VK_LEFT then (track ev store_key_left g, Return1)
    else if vkCode ev =? VK_RIGHT then (track ev store_key_right g, Return1)
    else if vkCode ev =? chr_K then (track ev store_key_k g, Return1)
    else if vkCode ev =? chr_J then (track ev store_key_j g, Return1)
    else if vkCode ev =? chr_H then (track ev store_key_h g, Return1)
    else if vkCode ev =? chr_L then (track ev store_key_l g, Return1)
    else if vkCode ev =? LEFT_CLICK_KEY
         then (track ev store_leftClickPressed g, Return1)
    else if vkCode ev =? RIGHT_CLICK_KEY
         then (track ev store_rightClickPressed g, Return1)
    else if vkCode ev =? VK_LSHIFT then (track ev store_shiftPressed g, Return1)
    else (g, CallNextHookEx)
  else (clear_keys g, CallNextHookEx).

(** The hook run over a sequence of events, oldest first. *)
Fixpoint hook_run (g : Globals) (evs : list KeyEvent) : Globals :=
  match evs with
  | [] => g
  | ev :: rest => hook_run (fst (LowLevelKeyboardProc g ev)) rest
  end.

(** ** Floating point *)

(** [float]: IEEE-754 binary32, round to nearest even. *)
Module F32.
Definition prec : Z := 24.
Definition emax : Z := 128.
Definition t : Type := spec_float.
Definition of_Z (z : Z) : t := binary_normalize prec emax z 0 false.
Definition zero : t := S754_zero false.
Definition one : t := of_Z 1.
Definition add : t -> t -> t := SFadd prec emax.
Definition sub : t -> t -> t := SFsub prec emax.
Definition mul : t -> t -> t := SFmul prec emax.
Definition div : t -> t -> t := SFdiv prec emax.
Definition sqrt : t -> t := SFsqrt prec emax.
Definition ltb : t -> t -> bool := SFltb.
End F32.

(** [double]: IEEE-754 binary64, round to nearest even. *)
Module F64.
Definition prec : Z := 53.
Definition emax : Z := 1024.
Definition t : Type := spec_float.
Definition of_Z (z : Z) : t := binary_normalize prec emax z 0 false.
Definition zero : t := S754_zero false.
Definition one : t := of_Z 1.
Definition add : t -> t -> t := SFadd prec emax.
Definition sub : t -> t -> t := SFsub prec emax.
Definition mul : t -> t -> t := SFmul prec emax.
Definition div : t -> t -> t := SFdiv prec emax.
Definition ltb : t -> t -> bool := SFltb.
Definition leb : t -> t -> bool := SFleb.
End F64.

(** The conversion [(float)x] of a double: rounds to the nearest float. *)
Definition float_of_double (x : F64.t) : F32.t :=
  match x with
  | S754_finite s m e => binary_round F32.prec F32.emax s m e
  | _ => x
  end.

(** The implicit promotion of a float to double: exact, the result is put in
    the canonical form of binary64. *)
Definition double_of_float (x : F32.t) : F64.t :=
  match x with
  | S754_finite s m e => binary_round F64.prec F64.emax s m e
  | _ => x
  end.

(** [std::hypot(float, float)], of the C++ library: the square root of the sum
    of the squares, in [float].  On the arguments the program passes (each
    of -1, 0, 1) the squares and their sum are exact, so the only rounding is
    the one of the square root. *)
Definition hypot (x y : F32.t) : F32.t :=
  F32.sqrt (F32.add (F32.mul x x) (F32.mul y y)).

(** [std::lround]: the nearest integer, halves away from zero.  The result on
    a NaN or an infinity is unspecified in C; 0 stands for it. *)
Definition lround (x : F64.t) : Z :=
  match x with
  | S754_finite s m e =>
      let mag :=
        match e with
        | Zneg p => (2 * Zpos m + 2 ^ Zpos p) / (2 * 2 ^ Zpos p)
        | _ => Zpos m * 2 ^ e
        end in
      if s then - mag else mag
  | _ => 0
  end.

(** The exact value of a finite float, as the fraction
    [numerator / denominator]; the denominator is a power of two. *)
Definition exact_num (x : spec_float) : Z :=
  match x with
  | S754_finite s m e =>
      let n := match e with Zneg _ => Zpos m | _ => Zpos m * 2 ^ e end in
      if s then - n else n
  | _ => 0
  end.
Definition exact_den (x : spec_float) : Z :=
  match x with
  | S754_finite _ _ (Zneg p) => 2 ^ Zpos p
  | _ => 1
  end.

Definition is_nan (x : spec_float) : bool :=
  match x with S754_nan => true | _ => false end.

(** ** Configuration *)

Definition MAX_SPEED_PIX_PER_S : F32.t := F32.of_Z 700.

(** The literals [0.5f], [1e-9] and [0.05]: the floats nearest to the decimal
    fractions, obtained as correctly rounded quotients of exact integers. *)
Definition lit_0_5f : F32.t := F32.div (F32.of_Z 1) (F32.of_Z 2).
Definition lit_1e_9 : F64.t := F64.div (F64.of_Z 1) (F64.of_Z 1000000000).
Definition lit_0_05 : F64.t := F64.div (F64.of_Z 5) (F64.of_Z 100).

(** [const double targetDt = 1.0 / UPDATES_PER_SEC;] *)
Definition targetDt : F64.t := F64.div F64.one (F64.of_Z UPDATES_PER_SEC).

(** ** The physics loop *)

(** What the loop asks the system to do. *)
Inductive OsCall : Type :=
| SetCursorPos (x y : Z)
| sendMouseDown (left : bool)
| sendMouseUp (left : bool).

(** The locals of [physicsLoop] that live across iterations. *)
Record Loop : Type := mkLoop {
  px : F64.t;
  py : F64.t;
  dx : F32.t;
  dy : F32.t
}.

(** What one iteration reads from the system: the time since the previous
    iteration in seconds, the answer of [GetCursorPos] ([None] when the call
    fails) and the two screen metrics. *)
Record TickEnv : Type := mkTickEnv {
  elapsed : F64.t;
  cursorPos : option (Z * Z);
  screenW : Z;
  screenH : Z
}.

(** The code before the [while]: the initial cursor position. *)
Definition physicsLoop_init (cursor : option (Z * Z)) (sw sh : Z) : Loop :=
  let p :=
    match cursor with
    | Some q => q
    | None => (Z.quot sw 2, Z.quot sh 2)
    end in
  mkLoop (F64.of_Z (fst p)) (F64.of_Z (snd p)) F32.zero F32.zero.

(** [if (dt < 1e-9) dt = targetDt;  if (dt > 0.05) dt = 0.05;] *)
Definition clamp_dt (dt : F64.t) : F64.t :=
  let dt1 := if F64.ltb dt lit_1e_9 then targetDt else dt in
  if F64.ltb lit_0_05 dt1 then lit_0_05 else dt1.

(** "Gather direction from key states". *)
Definition gather (g : Globals) : F32.t * F32.t :=
  let dx0 := F32.zero in
  let dy0 := F32.zero in
  let dy1 := if key_up g || key_k g then F32.sub dy0 F32.one else dy0 in
  let dy2 := if key_down g || key_j g then F32.add dy1 F32.one else dy1 in
  let dx1 := if key_left g || key_h g then F32.sub dx0 F32.one else dx0 in
  let dx2 := if key_right g || key_l g then F32.add dx1 F32.one else dx1 in
  (dx2, dy2).

(** "Normalize so diagonal isn't faster". *)
Definition normalize (d : F32.t * F32.t) : F32.t * F32.t :=
  let speed := hypot (fst d) (snd d) in
  if F32.ltb F32.zero speed
  then (F32.div (fst d) speed, F32.div (snd d) speed)
  else d.

Definition direction (g : Globals) : F32.t * F32.t := normalize (gather g).

Definition speedMult (g : Globals) : F32.t :=
  if shiftPressed g then lit_0_5f else F32.one.

(** [MAX_SPEED_PIX_PER_S * speedMult]: the left product of [move]. *)
Definition scalar_speed (g : Globals) : F32.t :=
  F32.mul MAX_SPEED_PIX_PER_S (speedMult g).

(** [float move = MAX_SPEED_PIX_PER_S * speedMult * (float)dt;] *)
Definition move (g : Globals) (dt : F64.t) : F32.t :=
  F32.mul (scalar_speed g) (float_of_double dt).

(** [px += dx * move;  py += dy * move;] *)
Definition integrate (d : F32.t * F32.t) (mv : F32.t) (p : F64.t * F64.t)
  : F64.t * F64.t :=
  (F64.add (fst p) (double_of_float (F32.mul (fst d) mv)),
   F64.add (snd p) (double_of_float (F32.mul (snd d) mv))).

(** "Clamp to screen bounds": the four [if]s, in the order of the code. *)
Definition clamp (sw sh : Z) (p : F64.t * F64.t) : F64.t * F64.t :=
  let x1 := if F64.ltb (fst p) F64.zero then F64.zero else fst p in
  let y1 := if F64.ltb (snd p) F64.zero then F64.zero else snd p in
  let x2 := if F64.ltb (F64.of_Z (sw - 1)) x1 then F64.of_Z (sw - 1) else x1 in
  let y2 := if F64.ltb (F64.of_Z (sh - 1)) y1 then F64.of_Z (sh - 1) else y1 in
  (x2, y2).

(** "Look for key clicks and enable dragging". *)
Definition click_edges (g : Globals) : list OsCall * Globals :=
  let prevLeft := g_prevLeft g in
  let prevRight := g_prevRight g in
  let curLeft := leftClickPressed g in
  let curRight := rightClickPressed g in
  ((if curLeft && negb prevLeft then [sendMouseDown true] else []) ++
   (if negb curLeft && prevLeft then [sendMouseUp true] else []) ++
   (if curRight && negb prevRight then [sendMouseDown false] else []) ++
   (if negb curRight && prevRight then [sendMouseUp false] else []),
   store_g_prevRight curRight (store_g_prevLeft curLeft g)).

(** One iteration of the [while] of [physicsLoop]. *)
Definition physicsLoop_tick (env : TickEnv) (g : Globals) (s : Loop)
  : list OsCall * Globals * Loop :=
  let dt := clamp_dt (elapsed env) in
  if enabled g then
    let d := direction g in
    let p := clamp (screenW env) (screenH env)
               (integrate d (move g dt) (px s, py s)) in
    let '(calls, g') := click_edges g in
    (SetCursorPos (lround (fst p)) (lround (snd p)) :: calls, g',
     mkLoop (fst p) (snd p) (fst d) (snd d))
  else
    match cursorPos env with
    | Some curp =>
        ([], g, mkLoop (F64.of_Z (fst curp)) (F64.of_Z (snd curp)) (dx s) (dy s))
    | None => ([], g, s)
    end.

(** The end of [WinMain], after the loop and the hook are gone. *)
Definition WinMain_cleanup (g : Globals) : list OsCall :=
  (if g_prevLeft g then [sendMouseUp true] else []) ++
  (if g_prevRight g then [sendMouseUp false] else []).

(** ** Vocabulary of the statements *)

(** The test at the top of the hook that flips the mode, together with the
    [nCode] guard before it. *)
Definition is_toggle (ev : KeyEvent) : bool :=
  (0 <=? nCode ev) && isDown ev &&
  ((vkCode ev =? VK_RSHIFT) || (vkCode ev =? VK_CAPITAL)).

(** Every flag of a logical key reads false: the eight movement flags, the two
    click flags and the speed modifier. *)
Definition all_keys_released (g : Globals) : bool :=
  negb (key_up g || key_down g || key_left g || key_right g ||
        key_k g || key_h g || key_j g || key_l g ||
        leftClickPressed g || rightClickPressed g || shiftPressed g).

(** The eight movement flags and the speed modifier read false. *)
Definition movement_and_speed_released (g : Globals) : bool :=
  negb (key_up g || key_down g || key_left g || key_right g ||
        key_k g || key_h g || key_j g || key_l g || shiftPressed g).

(** An event of the given kind on the given key, delivered with
    [nCode = HC_ACTION = 0]. *)
Definition key_down_ev (vk : Z) : KeyEvent := mkKeyEvent 0 WM_KEYDOWN vk.
Definition key_up_ev (vk : Z) : KeyEvent := mkKeyEvent 0 WM_KEYUP vk.

(** The globals once the controller has been switched on from the start. *)
Definition enabled_idle : Globals := store_enabled true globals_init.

(** The eight physical movement keys, the key code each [case] tests and the
    global it stores to. *)
Inductive MoveKey : Type :=
| ArrowUp | ArrowDown | ArrowLeft | ArrowRight
| LetterK | LetterJ | LetterH | LetterL.

Definition key_code (k : MoveKey) : Z :=
  match k with
  | ArrowUp => VK_UP | ArrowDown => VK_DOWN
  | ArrowLeft => VK_LEFT | ArrowRight => VK_RIGHT
  | LetterK => chr_K | LetterJ => chr_J
  | LetterH => chr_H | LetterL => chr_L
  end.

Definition key_flag (k : MoveKey) (g : Globals) : bool :=
  match k with
  | ArrowUp => key_up g | ArrowDown => key_down g
  | ArrowLeft => key_left g | ArrowRight => key_right g
  | LetterK => key_k g | LetterJ => key_j g
  | LetterH => key_h g | LetterL => key_l g
  end.

(** The four movement directions, the two keys of each, and what the physics
    loop reads for each: the condition of its [if] in "Gather direction". *)
Inductive Direction : Type := MoveUp | MoveDown | MoveLeft | MoveRight.

Definition aliases (d : Direction) : MoveKey * MoveKey :=
  match d with
  | MoveUp => (ArrowUp, LetterK)
  | MoveDown => (ArrowDown, LetterJ)
  | MoveLeft => (ArrowLeft, LetterH)
  | MoveRight => (ArrowRight, LetterL)
  end.

Definition held (d : Direction) (g : Globals) : bool :=
  match d with
  | MoveUp => key_up g || key_k g
  | MoveDown => key_down g || key_j g
  | MoveLeft => key_left g || key_h g
  | MoveRight => key_right g || key_l g
  end.

(** The direction (down is [true], up is [false]) of the most recent down or up
    event on one of the keys [vks] in a sequence of events given oldest first;
    [None] when there is no such event. *)
Definition most_recent (vks : list Z) (evs : list KeyEvent) : option bool :=
  match find (fun ev => existsb (Z.eqb (vkCode ev)) vks &&
                        (isDown ev || isUp ev)) (rev evs) with
  | Some ev => Some (isDown ev)
  | None => None
  end.

(** The state of one physical key after the events [evs]: the direction of its
    most recent event, or what its flag held before when it had none. *)
Definition alias_state (k : MoveKey) (g : Globals) (evs : list KeyEvent)
  : bool :=
  match most_recent [key_code k] evs with
  | Some b => b
  | None => key_flag k g
  end.

(** An event the hook processes in the switch: not ignored, not a toggle. *)
Definition plain_event (ev : KeyEvent) : Prop :=
  0 <= nCode ev /\ is_toggle ev = false.

(** Equality of system calls is decidable. *)
Definition OsCall_eq_dec (a b : OsCall) : {a = b} + {a <> b}.
Proof.
  decide equality; try apply Z.eq_dec; apply bool_dec.
Defined.

(** The two click flags as an iteration of the loop finds them: between two
    iterations the hook may have stored to both. *)
Definition sample_clicks (s : bool * bool) (g : Globals) : Globals :=
  store_rightClickPressed (snd s) (store_leftClickPressed (fst s) g).

(** The click translator over a sequence of per-tick samples of the two click
    flags (left, right): what each tick emits and the globals it leaves. *)
Fixpoint translator_trace (g : Globals) (samples : list (bool * bool))
  : list (list OsCall * Globals) :=
  match samples with
  | [] => []
  | s :: rest =>
      let r := click_edges (sample_clicks s g) in
      r :: translator_trace (snd r) rest
  end.

Definition button_sample (left : bool) (s : bool * bool) : bool :=
  if left then fst s else snd s.

Definition stored_prev (left : bool) (g : Globals) : bool :=
  if left then g_prevLeft g else g_prevRight g.

(** The sample a tick compares with: the one of the tick before, and for the
    first tick what [g_prevLeft] / [g_prevRight] held. *)
Definition prev_sample (left : bool) (g : Globals)
           (samples : list (bool * bool)) (i : nat) : bool :=
  match i with
  | O => stored_prev left g
  | S j => button_sample left (nth j samples (false, false))
  end.

Definition b2n (b : bool) : nat := if b then 1%nat else 0%nat.

(** The squared length [x^2 + y^2] of a vector of finite floats, exactly, as
    the fraction [sq_norm_num / sq_norm_den]. *)
Definition sq_norm_num (d : F32.t * F32.t) : Z :=
  (exact_num (fst d) * exact_den (snd d)) ^ 2 +
  (exact_num (snd d) * exact_den (fst d)) ^ 2.
Definition sq_norm_den (d : F32.t * F32.t) : Z :=
  (exact_den (fst d) * exact_den (snd d)) ^ 2.
Definition unit_length (d : F32.t * F32.t) : Prop :=
  sq_norm_num d = sq_norm_den d.

Definition is_finite (x : spec_float) : bool :=
  match x with S754_zero _ | S754_finite _ _ _ => true | _ => false end.

(** The float nearest to [1 / sqrt 2]: 11863283 / 2^24. *)
Definition inv_sqrt2_f : F32.t := S754_finite false 11863283 (-24).


(** [lo <= x <= hi] in double. *)
Definition within (lo hi x : F64.t) : bool := F64.leb lo x && F64.leb x hi.

(** A reachable state in which keys are held: the controller is switched on,
    then the up arrow and the left-click key go down. *)
Definition held_keys_state : Globals :=
  hook_run globals_init
    [key_down_ev VK_CAPITAL; key_up_ev VK_CAPITAL;
     key_down_ev VK_UP; key_down_ev LEFT_CLICK_KEY].

(** Both keys of a direction go down, then the first one is released. *)
Definition press_both_release_one (d : Direction) : list KeyEvent :=
  [key_down_ev (key_code (fst (aliases d)));
   key_down_ev (key_code (snd (aliases d)));
   key_up_ev (key_code (fst (aliases d)))].



(** The controller switched on with caps lock, then the right arrow held. *)
Definition right_held_state : Globals :=
  hook_run globals_init
    [key_down_ev VK_CAPITAL; key_up_ev VK_CAPITAL; key_down_ev VK_RIGHT].


(** A float that is not a NaN and carries the sign bit [s]. *)
Definition has_sign (s : bool) (x : spec_float) : Prop :=
  match x with
  | S754_nan => False
  | S754_zero s' | S754_infinity s' | S754_finite s' _ _ => s' = s
  end.

(** One axis of the clamp: below zero gives zero, above the bound gives the
    bound, anything else is left alone. *)
Definition clamp_axis_spec (hi x : F64.t) : F64.t :=
  if F64.ltb x F64.zero then F64.zero
  else if F64.ltb hi x then hi else x.

(** A float that is zero or finite, with a mantissa of at most [D] digits and
    an exponent of at most [E]. *)
Definition finite_within (D E : Z) (x : spec_float) : Prop :=
  match x with
  | S754_zero _ => True
  | S754_finite _ m e => Zdigits2 (Zpos m) <= D /\ e <= E
  | _ => False
  end.

(** The largest [int]: the screen metrics are [int]s. *)
Definition INT_MAX : Z := 2147483647.

(** ** The whole program *)

(** What happens to the program, in the order it happens: the system calls the
    hook with an event, or the physics loop comes to the test of its [while]
    and, when [running] is set, runs one iteration with what it reads from the
    system. *)
Inductive Step : Type :=
| KeyStep (ev : KeyEvent)
| TickStep (env : TickEnv).

Definition program_step (st : Globals * Loop) (x : Step)
  : list OsCall * (Globals * Loop) :=
  match x with
  | KeyStep ev => ([], (fst (LowLevelKeyboardProc (fst st) ev), snd st))
  | TickStep env =>
      if running (fst st) then
        let r := physicsLoop_tick env (fst st) (snd st) in
        (fst (fst r), (snd (fst r), snd r))
      else ([], st)
  end.

Fixpoint program_run (st : Globals * Loop) (xs : list Step)
  : list OsCall * (Globals * Loop) :=
  match xs with
  | [] => ([], st)
  | x :: rest =>
      let r := program_step st x in
      let r' := program_run (snd r) rest in
      (fst r ++ fst r', snd r')
  end.

(** [WinMain]: the exit code and the calls made.  [hook_installed] is whether
    [SetWindowsHookEx] gave a handle; when it did not, the program shows its
    message box and returns 1 before the physics thread exists.  Otherwise
    [steps] is what happens until the physics thread is joined, [cursor0] what
    [GetCursorPos] answers when the thread starts; then [running] is cleared
    and the held buttons are released. *)
Definition WinMain (hook_installed : bool) (cursor0 : option (Z * Z))
           (sw sh : Z) (steps : list Step) : Z * list OsCall :=
  if hook_installed then
    let r := program_run (globals_init, physicsLoop_init cursor0 sw sh) steps in
    (0, fst r ++ WinMain_cleanup (store_running false (fst (snd r))))
  else (1, []).

(** The key codes the [switch] of the hook has a [case] for. *)
Definition bound_keys : list Z :=
  [VK_UP; VK_DOWN; VK_LEFT; VK_RIGHT; chr_K; chr_J; chr_H; chr_L;
   LEFT_CLICK_KEY; RIGHT_CLICK_KEY; VK_LSHIFT].

Definition is_bound_key (vk : Z) : bool := existsb (Z.eqb vk) bound_keys.

Definition is_swallowed (r : HookResult) : bool :=
  match r with Return1 => true | CallNextHookEx => false end.

Definition is_key_step (x : Step) : bool :=
  match x with KeyStep _ => true | TickStep _ => false end.

(** A step that is not a toggle of the mode. *)
Definition not_a_toggle (x : Step) : Prop :=
  match x with KeyStep ev => is_toggle ev = false | TickStep _ => True end.

(** How many calls of a run press, and how many release, a button. *)
Definition downs (left : bool) (calls : list OsCall) : nat :=
  count_occ OsCall_eq_dec calls (sendMouseDown left).
Definition ups (left : bool) (calls : list OsCall) : nat :=
  count_occ OsCall_eq_dec calls (sendMouseUp left).

(** What a tick may read from the system: a valid elapsed time that is not a
    NaN, and the metrics [sw] and [sh] of a screen of at least one pixel. *)
Definition sound_env (sw sh : Z) (env : TickEnv) : Prop :=
  is_nan (elapsed env) = false /\
  valid_binary F64.prec F64.emax (elapsed env) = true /\
  screenW env = sw /\ screenH env = sh /\
  match cursorPos env with
  | Some q => Z.abs (fst q) <= INT_MAX /\ Z.abs (snd q) <= INT_MAX
  | None => True
  end.

Definition sound_step (sw sh : Z) (x : Step) : Prop :=
  match x with KeyStep _ => True | TickStep env => sound_env sw sh env end.

(** A call that, when it sets the cursor, sets it to a pixel of the screen. *)
Definition on_screen (sw sh : Z) (c : OsCall) : Prop :=
  match c with
  | SetCursorPos x y => 0 <= x <= sw - 1 /\ 0 <= y <= sh - 1
  | _ => True
  end.

(** A double that is zero or finite with a mantissa of at most 53 bits. *)
Definition short_mantissa (x : F64.t) : Prop :=
  match x with
  | S754_zero _ => True
  | S754_finite _ m _ => Zdigits2 (Z.pos m) <= F64.prec
  | _ => False
  end.

(** The clamp of an integer coordinate to [0, hi]. *)
Definition clampZ (hi z : Z) : Z := Z.max 0 (Z.min hi z).

(** The globals the hook writes: the eleven key flags and the mode, with
    [running] which neither the hook nor the loop writes. *)
Definition hook_side (g : Globals) : list bool :=
  [key_up g; key_down g; key_left g; key_right g;
   key_k g; key_h g; key_j g; key_l g;
   leftClickPressed g; rightClickPressed g; shiftPressed g;
   enabled g; running g].

(** The globals the physics loop writes, with [running]. *)
Definition loop_side (g : Globals) : list bool :=
  [g_prevLeft g; g_prevRight g; running g].

(** A double whose mantissa, when it has one, is of at most 53 bits. *)
Definition mantissa_fits (x : F64.t) : Prop :=
  match x with
  | S754_finite _ m _ => Zdigits2 (Z.pos m) <= F64.prec
  | _ => True
  end.

(** The position kept by the loop is made of two such finite doubles. *)
Definition sound_position (s : Loop) : Prop :=
  short_mantissa (px s) /\ short_mantissa (py s).

(** Half of a float, when halving is exact: the same mantissa, the exponent
    one less. *)
Definition exact_half (x : F32.t) : F32.t :=
  match x with
  | S754_finite s m e => S754_finite s m (e - 1)
  | _ => x
  end.



(** One button followed through a sequence of calls.  [held] is whether the
    button is down before the calls; the result is whether it is down after
    them, and [None] when a button-down is sent while the button is down or a
    button-up while it is up. *)
Fixpoint press_release (left held : bool) (calls : list OsCall) : option bool :=
  match calls with
  | [] => Some held
  | sendMouseDown b :: rest =>
      if Bool.eqb b left
      then if held then None else press_release left true rest
      else press_release left held rest
  | sendMouseUp b :: rest =>
      if Bool.eqb b left
      then if held then press_release left false rest else None
      else press_release left held rest
  | SetCursorPos _ _ :: rest => press_release left held rest
  end.

(** ** Basic facts about the hook *)

Lemma negb_neq (b : bool) : negb b <> b.
Proof. destruct b; discriminate. Qed.

Lemma isDown_isUp_excl (ev : KeyEvent) : isDown ev = true -> isUp ev = false.
Proof.
  unfold isDown, isUp, WM_KEYDOWN, WM_SYSKEYDOWN, WM_KEYUP, WM_SYSKEYUP.
  intros H. apply orb_true_iff in H.
  apply orb_false_iff. split; apply Z.eqb_neq; destruct H as [H | H];
    apply Z.eqb_eq in H; lia.
Qed.

Lemma track_enabled ev store g :
  (forall b g0, enabled (store b g0) = enabled g0) ->
  enabled (track ev store g) = enabled g.
Proof.
  intros Hs. unfold track.
  destruct (isDown ev), (isUp ev); rewrite ?Hs; reflexivity.
Qed.

Lemma clear_keys_enabled g : enabled (clear_keys g) = enabled g.
Proof. reflexivity. Qed.

(** The first two tests of the hook, spelled out. *)
Lemma hook_ignored g ev :
  nCode ev < 0 -> LowLevelKeyboardProc g ev = (g, CallNextHookEx).
Proof.
  intros H. unfold LowLevelKeyboardProc.
  apply Z.ltb_lt in H. rewrite H. reflexivity.
Qed.

Lemma hook_toggle g ev :
  is_toggle ev = true ->
  LowLevelKeyboardProc g ev = (store_enabled (negb (enabled g)) g, Return1).
Proof.
  unfold is_toggle, LowLevelKeyboardProc. intros H.
  apply andb_true_iff in H. destruct H as [H Hk].
  apply andb_true_iff in H. destruct H as [Hn Hd].
  apply Z.leb_le in Hn.
  destruct (nCode ev <? 0) eqn:E; [apply Z.ltb_lt in E; lia |].
  rewrite Hd, Hk. reflexivity.
Qed.

Lemma hook_not_toggle_test ev :
  0 <= nCode ev -> is_toggle ev = false ->
  (nCode ev <? 0) = false /\
  isDown ev && ((vkCode ev =? VK_RSHIFT) || (vkCode ev =? VK_CAPITAL)) = false.
Proof.
  unfold is_toggle. intros Hn H.
  assert (E : (0 <=? nCode ev) = true) by (apply Z.leb_le; exact Hn).
  rewrite E in H. simpl in H.
  split; [apply Z.ltb_ge; exact Hn | exact H].
Qed.

Lemma hook_disabled g ev :
  0 <= nCode ev -> is_toggle ev = false -> enabled g = false ->
  LowLevelKeyboardProc g ev = (clear_keys g, CallNextHookEx).
Proof.
  intros Hn Ht He. destruct (hook_not_toggle_test ev Hn Ht) as [H1 H2].
  unfold LowLevelKeyboardProc. rewrite H1, H2, He. reflexivity.
Qed.

Lemma hook_keeps_mode g ev :
  is_toggle ev = false ->
  enabled (fst (LowLevelKeyboardProc g ev)) = enabled g.
Proof.
  intros Ht. destruct (Z.lt_ge_cases (nCode ev) 0) as [Hn | Hn].
  - rewrite hook_ignored by exact Hn. reflexivity.
  - destruct (hook_not_toggle_test ev Hn Ht) as [H1 H2].
    unfold LowLevelKeyboardProc. rewrite H1, H2.
    destruct (enabled g) eqn:He; [| simpl; exact He].
    repeat match goal with
           | |- context [if ?c then _ else _] => destruct c
           end; simpl; rewrite ?track_enabled; auto.
Qed.

(** ** The speed-modifier key *)

(** C1.  While the controller is enabled, an event on the speed-modifier key
    (left shift) updates [shiftPressed] (down gives true, up gives false) but
    the hook returns 1 for it, as for the movement and the click keys: the
    event is swallowed and not handed to [CallNextHookEx], whatever its
    kind and whatever the other globals hold. *)
Theorem shift_event_is_swallowed (g : Globals) (w : Z) :
  let ev := mkKeyEvent 0 w VK_LSHIFT in
  LowLevelKeyboardProc (store_enabled true g) ev
  = (track ev store_shiftPressed (store_enabled true g), Return1)
  /\ snd (LowLevelKeyboardProc (store_enabled true g) ev) <> CallNextHookEx
  /\ LowLevelKeyboardProc enabled_idle (key_down_ev VK_LSHIFT)
     = (store_shiftPressed true enabled_idle, Return1).
Proof.
  intros ev.
  assert (E : LowLevelKeyboardProc (store_enabled true g) ev
              = (track ev store_shiftPressed (store_enabled true g), Return1)).
  { unfold LowLevelKeyboardProc, ev. simpl.
    rewrite andb_false_r. reflexivity. }
  split; [exact E | split].
  - rewrite E. discriminate.
  - reflexivity.
Qed.

(** ** Switching the controller off *)

(** C2, as stated, fails.  From a state with the up arrow and the left-click
    key held, the toggle switches the controller off and leaves both flags
    true; the next event processed while disabled (the release of the toggle
    key) still leaves the left-click flag true. *)
Lemma disable_does_not_clear_every_flag :
  let g1 := fst (LowLevelKeyboardProc held_keys_state (key_down_ev VK_CAPITAL)) in
  let g2 := fst (LowLevelKeyboardProc g1 (key_up_ev VK_CAPITAL)) in
  enabled held_keys_state = true /\
  enabled g1 = false /\ all_keys_released g1 = false /\ key_up g1 = true /\
  enabled g2 = false /\ all_keys_released g2 = false /\
  leftClickPressed g2 = true.
Proof. vm_compute. repeat split. Qed.

(** C2, amended.  The toggle changes the mode flag and nothing else.  Every
    event the hook processes while the controller is disabled, other than a
    toggle, stores false to the eight movement flags and to the speed-modifier
    flag, leaves the mode disabled and is handed on with [CallNextHookEx]. *)
Theorem disabled_event_clears_movement_and_speed
        (g : Globals) (t ev : KeyEvent) :
  is_toggle t = true -> 0 <= nCode ev -> is_toggle ev = false ->
  LowLevelKeyboardProc g t = (store_enabled (negb (enabled g)) g, Return1) /\
  let gd := store_enabled false g in
  LowLevelKeyboardProc gd ev = (clear_keys gd, CallNextHookEx) /\
  movement_and_speed_released (clear_keys gd) = true /\
  enabled (clear_keys gd) = false.
Proof.
  intros Htog Hn Ht. split.
  - apply hook_toggle. exact Htog.
  - intros gd. split; [apply hook_disabled; auto |].
    split; reflexivity.
Qed.

Lemma disabled_event_clears_movement_and_speed_witness :
  LowLevelKeyboardProc held_keys_state (key_down_ev VK_CAPITAL)
  = (store_enabled (negb (enabled held_keys_state)) held_keys_state, Return1) /\
  let gd := store_enabled false held_keys_state in
  LowLevelKeyboardProc gd (key_up_ev VK_CAPITAL)
  = (clear_keys gd, CallNextHookEx) /\
  movement_and_speed_released (clear_keys gd) = true /\
  enabled (clear_keys gd) = false.
Proof.
  apply (disabled_event_clears_movement_and_speed
           held_keys_state (key_down_ev VK_CAPITAL) (key_up_ev VK_CAPITAL));
    [reflexivity | vm_compute; discriminate | reflexivity].
Defined.

(** ** The toggle keys *)

(** C8, as stated, fails: no single key code is the toggle.  The down-edges of
    right shift and of caps lock both flip the mode and are swallowed. *)
Lemma no_single_toggle_key :
  ~ exists t : Z, forall (g : Globals) (ev : KeyEvent),
      nCode ev = 0 ->
      (enabled (fst (LowLevelKeyboardProc g ev)) = negb (enabled g) /\
       snd (LowLevelKeyboardProc g ev) = Return1)
      <-> (isDown ev = true /\ vkCode ev = t).
Proof.
  intros [t H].
  assert (H1 : vkCode (key_down_ev VK_RSHIFT) = t).
  { apply (H globals_init (key_down_ev VK_RSHIFT) eq_refl).
    vm_compute. split; reflexivity. }
  assert (H2 : vkCode (key_down_ev VK_CAPITAL) = t).
  { apply (H globals_init (key_down_ev VK_CAPITAL) eq_refl).
    vm_compute. split; reflexivity. }
  rewrite <- H1 in H2. vm_compute in H2. discriminate.
Qed.

(** C8, amended.  There are two toggle keys, right shift and caps lock.  An
    event flips the mode and is swallowed if and only if it is a processed
    down-edge of one of the two, whatever the current mode; every other event
    leaves the mode as it is. *)
Theorem toggle_iff_rshift_or_capslock_down (g : Globals) (ev : KeyEvent) :
  ((enabled (fst (LowLevelKeyboardProc g ev)) = negb (enabled g) /\
    snd (LowLevelKeyboardProc g ev) = Return1)
   <-> (0 <= nCode ev /\ isDown ev = true /\
        (vkCode ev = VK_RSHIFT \/ vkCode ev = VK_CAPITAL)))
  /\
  enabled (fst (LowLevelKeyboardProc g ev))
  = (if (0 <=? nCode ev) && isDown ev &&
        ((vkCode ev =? VK_RSHIFT) || (vkCode ev =? VK_CAPITAL))
     then negb (enabled g) else enabled g).
Proof.
  assert (Hspec : is_toggle ev = true <->
                  (0 <= nCode ev /\ isDown ev = true /\
                   (vkCode ev = VK_RSHIFT \/ vkCode ev = VK_CAPITAL))).
  { unfold is_toggle.
    rewrite !andb_true_iff, orb_true_iff, Z.leb_le, !Z.eqb_eq. tauto. }
  split; [split |].
  - intros [Hflip _]. apply Hspec.
    destruct (is_toggle ev) eqn:Ht; [reflexivity |].
    rewrite (hook_keeps_mode g ev Ht) in Hflip.
    symmetry in Hflip. destruct (negb_neq _ Hflip).
  - intros H. apply Hspec in H. rewrite (hook_toggle g ev H).
    split; reflexivity.
  - fold (is_toggle ev). destruct (is_toggle ev) eqn:Ht.
    + rewrite (hook_toggle g ev Ht). reflexivity.
    + apply hook_keeps_mode. exact Ht.
Qed.

(** ** Movement keys and their aliases *)

Ltac unfold_keys :=
  unfold key_code, LEFT_CLICK_KEY, RIGHT_CLICK_KEY, VK_CAPITAL, VK_LEFT, VK_UP,
    VK_RIGHT, VK_DOWN, VK_LSHIFT, VK_RSHIFT, chr_H, chr_J, chr_K, chr_L,
    chr_X, chr_Z in *.

Lemma track_flag ev store g (f : Globals -> bool) :
  (forall b g0, f (store b g0) = b) ->
  f (track ev store g) = if isDown ev || isUp ev then isDown ev else f g.
Proof.
  intros Hs. unfold track.
  destruct (isDown ev) eqn:Hd.
  - rewrite (isDown_isUp_excl ev Hd). simpl. apply Hs.
  - simpl. destruct (isUp ev); [apply Hs | reflexivity].
Qed.

Lemma track_other ev store g (f : Globals -> bool) :
  (forall b g0, f (store b g0) = f g0) ->
  f (track ev store g) = f g.
Proof.
  intros Hs. unfold track.
  destruct (isDown ev), (isUp ev); rewrite ?Hs; reflexivity.
Qed.

(** What one processed event does to the flag of one physical key while the
    controller is enabled. *)
Lemma hook_enabled_flag (g : Globals) (ev : KeyEvent) (k : MoveKey) :
  enabled g = true -> plain_event ev ->
  key_flag k (fst (LowLevelKeyboardProc g ev))
  = if (vkCode ev =? key_code k) && (isDown ev || isUp ev)
    then isDown ev else key_flag k g.
Proof.
  intros He [Hn Ht].
  destruct (hook_not_toggle_test ev Hn Ht) as [H1 H2].
  unfold LowLevelKeyboardProc. rewrite H1, H2, He. clear H1 H2 Ht Hn.
  destruct k; unfold_keys; cbn [key_flag];
    repeat match goal with
      | |- context [if (vkCode ev =? ?c) then _ else _] =>
          let E := fresh "E" in
          destruct (Z.eqb_spec (vkCode ev) c) as [E | E];
          [ rewrite ?E; cbn [fst andb Z.eqb Pos.eqb];
            match goal with
            | |- ?f (track _ _ _) = _ =>
                first [ apply (track_flag _ _ _ f); reflexivity
                      | apply (track_other _ _ _ f); reflexivity ]
            end
          | ]
      end;
    cbn [fst];
    repeat match goal with
      | |- context [vkCode ev =? ?c] =>
          destruct (Z.eqb_spec (vkCode ev) c); [contradiction |]
      end;
    reflexivity.
Qed.

Lemma hook_run_app (g : Globals) (evs : list KeyEvent) (ev : KeyEvent) :
  hook_run g (evs ++ [ev]) = fst (LowLevelKeyboardProc (hook_run g evs) ev).
Proof.
  revert g. induction evs as [| e rest IH]; intros g; simpl.
  - reflexivity.
  - apply IH.
Qed.

Lemma hook_run_stays_enabled (g : Globals) (evs : list KeyEvent) :
  enabled g = true -> Forall plain_event evs ->
  enabled (hook_run g evs) = true.
Proof.
  intros He Hall. revert g He.
  induction Hall as [| ev rest [_ Ht] _ IH]; intros g He; simpl.
  - exact He.
  - apply IH. rewrite hook_keeps_mode by exact Ht. exact He.
Qed.

Lemma most_recent_snoc (c : Z) (evs : list KeyEvent) (ev : KeyEvent) :
  most_recent [c] (evs ++ [ev])
  = if (vkCode ev =? c) && (isDown ev || isUp ev)
    then Some (isDown ev) else most_recent [c] evs.
Proof.
  unfold most_recent. rewrite rev_app_distr. simpl.
  rewrite orb_false_r.
  destruct ((vkCode ev =? c) && (isDown ev || isUp ev)); reflexivity.
Qed.

(** Each flag follows its own key: after a run of processed events with the
    controller enabled, the flag holds the direction of the most recent event
    on that key. *)
Lemma flag_follows_its_key (g : Globals) (evs : list KeyEvent) (k : MoveKey) :
  enabled g = true -> Forall plain_event evs ->
  key_flag k (hook_run g evs) = alias_state k g evs.
Proof.
  intros He. induction evs as [| ev evs IH] using rev_ind; intros Hall.
  - reflexivity.
  - apply Forall_app in Hall. destruct Hall as [Hevs Hev].
    inversion Hev as [| ? ? Hp _]; subst.
    rewrite hook_run_app.
    rewrite hook_enabled_flag
      by (try apply hook_run_stays_enabled; assumption).
    unfold alias_state. rewrite most_recent_snoc.
    destruct ((vkCode ev =? key_code k) && (isDown ev || isUp ev)).
    + reflexivity.
    + apply IH. exact Hevs.
Qed.

(** C9, as stated, fails.  With the controller enabled, the up arrow and K go
    down and the up arrow is released: the most recent event on an alias of
    "move up" is an up-edge, and the physics loop still reads the direction as
    held, through the flag of K. *)
Lemma released_alias_leaves_direction_held :
  let evs := press_both_release_one MoveUp in
  most_recent [VK_UP; chr_K] evs = Some false /\
  held MoveUp (hook_run enabled_idle evs) = true.
Proof. vm_compute. split; reflexivity. Qed.

(** C9, amended.  Each physical movement key has a flag of its own, which holds
    the direction of the most recent event on that key; the physics loop reads
    a direction as held when the flag of at least one of its two keys is set.
    After both keys of a direction went down and one was released, the
    direction still reads held. *)
Theorem direction_held_iff_some_alias_down
        (g : Globals) (evs : list KeyEvent) (d : Direction) :
  enabled g = true -> Forall plain_event evs ->
  held d (hook_run g evs)
  = alias_state (fst (aliases d)) g evs || alias_state (snd (aliases d)) g evs
  /\ held d (hook_run enabled_idle (press_both_release_one d)) = true.
Proof.
  intros He Hall. split.
  - rewrite <- !flag_follows_its_key by assumption.
    destruct d; reflexivity.
  - destruct d; reflexivity.
Qed.

Lemma direction_held_iff_some_alias_down_witness :
  held MoveLeft (hook_run enabled_idle (press_both_release_one MoveLeft))
  = alias_state ArrowLeft enabled_idle (press_both_release_one MoveLeft)
    || alias_state LetterH enabled_idle (press_both_release_one MoveLeft)
  /\ held MoveLeft (hook_run enabled_idle (press_both_release_one MoveLeft))
     = true.
Proof.
  apply (direction_held_iff_some_alias_down
           enabled_idle (press_both_release_one MoveLeft) MoveLeft).
  - reflexivity.
  - repeat constructor; vm_compute; discriminate.
Defined.

(** ** The click translator *)

(** One tick of the translator, for one button. *)
Lemma click_edges_one_tick (g : Globals) (s : bool * bool) (left : bool) :
  let r := click_edges (sample_clicks s g) in
  let prev := stored_prev left g in
  let cur := button_sample left s in
  count_occ OsCall_eq_dec (fst r) (sendMouseDown left) = b2n (negb prev && cur)
  /\ count_occ OsCall_eq_dec (fst r) (sendMouseUp left) = b2n (prev && negb cur)
  /\ stored_prev left (snd r) = cur.
Proof.
  destruct s as [a b]. unfold click_edges, sample_clicks, stored_prev,
    button_sample. cbn [fst snd g_prevLeft g_prevRight leftClickPressed
    rightClickPressed store_leftClickPressed store_rightClickPressed
    store_g_prevLeft store_g_prevRight].
  destruct (g_prevLeft g), (g_prevRight g), a, b, left;
    repeat split; reflexivity.
Qed.

Lemma click_edges_length (g : Globals) (s : bool * bool) :
  length (fst (click_edges (sample_clicks s g)))
  = (b2n (xorb (g_prevLeft g) (fst s)) + b2n (xorb (g_prevRight g) (snd s)))%nat.
Proof.
  destruct s as [a b]. unfold click_edges, sample_clicks.
  cbn [fst snd g_prevLeft g_prevRight leftClickPressed
    rightClickPressed store_leftClickPressed store_rightClickPressed].
  destruct (g_prevLeft g), (g_prevRight g), a, b; reflexivity.
Qed.

(** Every pair of samples is what the hook leaves after an event on each of
    the two click keys while the controller is enabled. *)
Lemma sample_clicks_by_hook (g : Globals) (s : bool * bool) :
  enabled g = true ->
  hook_run g [mkKeyEvent 0 (if fst s then WM_KEYDOWN else WM_KEYUP) LEFT_CLICK_KEY;
              mkKeyEvent 0 (if snd s then WM_KEYDOWN else WM_KEYUP) RIGHT_CLICK_KEY]
  = sample_clicks s g.
Proof.
  intros He. destruct s as [a b]. unfold hook_run, LowLevelKeyboardProc.
  destruct a, b; cbn; rewrite He; cbn; rewrite He; reflexivity.
Qed.

(** The enabled iteration of the loop runs the translator on the globals it
    finds, after the one [SetCursorPos]. *)
Lemma physicsLoop_tick_runs_click_edges (env : TickEnv) (g : Globals) (s : Loop) :
  enabled g = true ->
  exists x y,
    fst (fst (physicsLoop_tick env g s)) = SetCursorPos x y :: fst (click_edges g)
    /\ snd (fst (physicsLoop_tick env g s)) = snd (click_edges g).
Proof.
  intros He. unfold physicsLoop_tick. rewrite He.
  destruct (click_edges g) as [calls g'] eqn:E. simpl.
  eexists. eexists. split; reflexivity.
Qed.

(** C3.  Over any finite sequence of per-tick samples of the two click flags,
    and for each button on its own: the tick emits exactly one button-down
    when the previous sample is false and the current one true, exactly one
    button-up when the previous is true and the current false, and nothing for
    that button otherwise (so the tick emits as many events as there are
    buttons whose sample changed); after the tick the stored previous value is
    the current sample.  The previous sample of the first tick is what the
    stored value held. *)
Theorem edge_translator_one_event_per_edge
        (g : Globals) (samples : list (bool * bool)) (i : nat) (left : bool) :
  (i < length samples)%nat ->
  let r := nth i (translator_trace g samples) ([], globals_init) in
  let prev := prev_sample left g samples i in
  let cur := button_sample left (nth i samples (false, false)) in
  count_occ OsCall_eq_dec (fst r) (sendMouseDown left) = b2n (negb prev && cur)
  /\ count_occ OsCall_eq_dec (fst r) (sendMouseUp left) = b2n (prev && negb cur)
  /\ length (fst r)
     = (b2n (xorb (prev_sample true g samples i)
                  (fst (nth i samples (false, false)))) +
        b2n (xorb (prev_sample false g samples i)
                  (snd (nth i samples (false, false)))))%nat
  /\ stored_prev left (snd r) = cur.
Proof.
  revert g i. induction samples as [| s rest IH]; intros g i Hi.
  - simpl in Hi. lia.
  - destruct i as [| j].
    + cbn [nth translator_trace prev_sample].
      destruct (click_edges_one_tick g s left) as (H1 & H2 & H3).
      repeat split; try assumption.
      apply click_edges_length.
    + cbn [nth translator_trace].
      simpl in Hi. apply PeanoNat.Nat.succ_lt_mono in Hi.
      specialize (IH (snd (click_edges (sample_clicks s g))) j Hi).
      assert (Hprev : forall b,
                 prev_sample b (snd (click_edges (sample_clicks s g))) rest j
                 = prev_sample b g (s :: rest) (S j)).
      { intros b. destruct j as [| j']; [| reflexivity].
        cbn [prev_sample nth].
        apply (click_edges_one_tick g s b). }
      rewrite !Hprev in IH. exact IH.
Qed.

Lemma edge_translator_one_event_per_edge_witness :
  let samples := [(true, false); (true, false); (true, true); (false, true)] in
  let r := nth 3 (translator_trace globals_init samples) ([], globals_init) in
  count_occ OsCall_eq_dec (fst r) (sendMouseDown true) = 0%nat
  /\ count_occ OsCall_eq_dec (fst r) (sendMouseUp true) = 1%nat
  /\ length (fst r) = 1%nat
  /\ stored_prev true (snd r) = false.
Proof.
  apply (edge_translator_one_event_per_edge globals_init
           [(true, false); (true, false); (true, true); (false, true)]
           3 true).
  simpl. lia.
Defined.

(** ** Shutdown *)

(** C7.  At the end of [WinMain], for each button on its own: when its stored
    previous value is true exactly one button-up is sent for it, when it is
    false none is; no button-down and no cursor move is sent. *)
Theorem shutdown_releases_held_buttons (g : Globals) (left : bool) :
  count_occ OsCall_eq_dec (WinMain_cleanup g) (sendMouseUp left)
  = b2n (stored_prev left g)
  /\ count_occ OsCall_eq_dec (WinMain_cleanup g) (sendMouseDown left) = 0%nat
  /\ length (WinMain_cleanup g)
     = (b2n (g_prevLeft g) + b2n (g_prevRight g))%nat.
Proof.
  unfold WinMain_cleanup, stored_prev.
  destruct (g_prevLeft g), (g_prevRight g), left; repeat split; reflexivity.
Qed.

(** ** The initial cursor position *)

(** C10.  When [GetCursorPos] fails at the start of the physics loop the
    position is initialised to the centre of the screen, each metric halved
    by integer division; when it succeeds, to the position it returned. *)
Theorem initial_position_falls_back_to_centre (sw sh x y : Z) :
  (px (physicsLoop_init None sw sh), py (physicsLoop_init None sw sh))
  = (F64.of_Z (Z.quot sw 2), F64.of_Z (Z.quot sh 2))
  /\
  (px (physicsLoop_init (Some (x, y)) sw sh),
   py (physicsLoop_init (Some (x, y)) sw sh))
  = (F64.of_Z x, F64.of_Z y)
  /\
  physicsLoop_init None 1920 1080 = physicsLoop_init (Some (960, 540)) 1920 1080.
Proof. repeat split; reflexivity. Qed.

(** ** The direction vector *)

(** [inv_sqrt2_f] is the float nearest to [1 / sqrt 2]: with n = 11863283,
    ((2n-1) / 2^25)^2 < 1/2 < ((2n+1) / 2^25)^2. *)
Lemma inv_sqrt2_f_is_nearest :
  exact_num inv_sqrt2_f = 11863283 /\ exact_den inv_sqrt2_f = 2 ^ 24 /\
  2 * (2 * 11863283 - 1) ^ 2 < 2 ^ 50 < 2 * (2 * 11863283 + 1) ^ 2.
Proof. vm_compute. repeat split; reflexivity. Qed.

(** No power of two squared is twice a square: the step behind "no float is
    [1 / sqrt 2]". *)
Lemma twice_square_not_power_of_four (k : nat) (n : Z) :
  2 * (n * n) <> 2 ^ Z.of_nat k * 2 ^ Z.of_nat k.
Proof.
  revert n. induction k as [| k IH]; intros n H.
  - change (2 ^ Z.of_nat 0) with 1 in H. lia.
  - rewrite Nat2Z.inj_succ, Z.pow_succ_r in H by lia.
    assert (Hn : exists q, n = 2 * q).
    { destruct (Z.Even_or_Odd n) as [[q Hq] | [q Hq]]; [exists q; exact Hq |].
      exfalso. subst n. lia. }
    destruct Hn as [q ->].
    apply (IH q). lia.
Qed.

Lemma exact_den_power_of_two (x : spec_float) :
  exists k : nat, exact_den x = 2 ^ Z.of_nat k.
Proof.
  destruct x as [s | s | | s m [| p | p]];
    try (exists 0%nat; reflexivity).
  exists (Pos.to_nat p). simpl exact_den.
  rewrite positive_nat_Z. reflexivity.
Qed.

(** Whatever value a normalisation gives to the two components of a diagonal,
    if they are equal up to sign the vector is not of length 1: the failure on
    the diagonal does not depend on how [hypot] and the division round. *)
Lemma equal_components_never_unit_length (x y : F32.t) :
  exact_den y = exact_den x ->
  Z.abs (exact_num y) = Z.abs (exact_num x) ->
  ~ unit_length (x, y).
Proof.
  intros Hd Hn. unfold unit_length, sq_norm_num, sq_norm_den. cbn [fst snd].
  rewrite Hd. destruct (exact_den_power_of_two x) as [k Hk].
  assert (Hpos : 0 < exact_den x) by (rewrite Hk; apply Z.pow_pos_nonneg; lia).
  assert (Hsq : exact_num y * exact_num y = exact_num x * exact_num x) by nia.
  intros H.
  apply (twice_square_not_power_of_four k (exact_num x)).
  rewrite <- Hk. nia.
Qed.








(** ** Speed and displacement *)

Lemma scalar_speed_value (g : Globals) :
  scalar_speed g = if shiftPressed g then F32.of_Z 350 else F32.of_Z 700.
Proof. unfold scalar_speed, speedMult. destruct (shiftPressed g); reflexivity. Qed.





(** ** Comparison and conversion of floats *)

Lemma shr_1_nonneg (mrs : shr_record) :
  0 <= shr_m mrs -> 0 <= shr_m (shr_1 mrs).
Proof.
  destruct mrs as [m r s]. simpl.
  destruct m as [| [p | p |] | p]; simpl; intros H; lia.
Qed.

Lemma iter_pos_shr_1_nonneg (p : positive) (mrs : shr_record) :
  0 <= shr_m mrs -> 0 <= shr_m (iter_pos shr_1 p mrs).
Proof.
  revert mrs. induction p as [p IH | p IH |]; intros mrs H; simpl.
  - apply IH, IH, shr_1_nonneg, H.
  - apply IH, IH, H.
  - apply shr_1_nonneg, H.
Qed.

Section RoundingSign.
Variables prec emax : Z.

Lemma shr_fexp_nonneg (m e : Z) (l : location) :
  0 <= m -> 0 <= shr_m (fst (shr_fexp prec emax m e l)).
Proof.
  intros H. unfold shr_fexp, shr.
  assert (H0 : 0 <= shr_m (shr_record_of_loc m l))
    by (destruct l as [| []]; exact H).
  destruct (fexp prec emax (Zdigits2 m + e) - e); simpl;
    auto using iter_pos_shr_1_nonneg.
Qed.

Lemma round_nearest_even_nonneg (m : Z) (l : location) :
  0 <= m -> 0 <= round_nearest_even m l.
Proof.
  intros H. destruct l as [| []]; simpl; try lia.
  destruct (Z.even m); lia.
Qed.

(** Rounding a non-negative mantissa never gives a NaN and keeps the sign. *)
Lemma binary_round_aux_sign (s : bool) (m e : Z) (l : location) :
  0 <= m -> has_sign s (binary_round_aux prec emax s m e l).
Proof.
  intros H. unfold binary_round_aux.
  pose proof (shr_fexp_nonneg m e l H) as H1.
  destruct (shr_fexp prec emax m e l) as [mrs1 e1]. simpl in H1.
  pose proof (shr_fexp_nonneg _ e1 loc_Exact
                (round_nearest_even_nonneg _ (loc_of_shr_record mrs1) H1)) as H2.
  destruct (shr_fexp prec emax
              (round_nearest_even (shr_m mrs1) (loc_of_shr_record mrs1))
              e1 loc_Exact) as [mrs2 e2].
  simpl in H2.
  destruct (shr_m mrs2) as [| q | q]; simpl.
  - reflexivity.
  - destruct (e2 <=? emax - prec); reflexivity.
  - lia.
Qed.

Lemma binary_round_sign (s : bool) (m : positive) (e : Z) :
  has_sign s (binary_round prec emax s m e).
Proof.
  unfold binary_round.
  destruct (shl_align m e _) as [mz ez].
  apply binary_round_aux_sign. lia.
Qed.

End RoundingSign.

Lemma of_Z_nonneg (z : Z) : 0 <= z -> F64.leb F64.zero (F64.of_Z z) = true.
Proof.
  intros H. unfold F64.of_Z, binary_normalize.
  destruct z as [| p | p]; [reflexivity | | lia].
  pose proof (binary_round_sign F64.prec F64.emax false p 0) as Hs.
  destruct (binary_round F64.prec F64.emax false p 0) as [s | s | | s m e];
    simpl in Hs; try contradiction; subst; reflexivity.
Qed.

Lemma SFcompare_antisym (x y : spec_float) (c : comparison) :
  SFcompare x y = Some c -> SFcompare y x = Some (CompOpp c).
Proof.
  destruct x as [[] | [] | | [] mx ex], y as [[] | [] | | [] my ey];
    simpl; intros H; inversion H; subst; clear H; try reflexivity;
    rewrite (Z.compare_antisym ex ey);
    destruct (ex ?= ey); simpl; try reflexivity;
    rewrite ?(Pos.compare_cont_antisym mx my Eq); simpl;
    reflexivity.
Qed.

Lemma SFcompare_not_nan (x y : spec_float) :
  is_nan x = false -> is_nan y = false -> exists c, SFcompare x y = Some c.
Proof.
  destruct x as [[] | [] | | [] mx ex], y as [[] | [] | | [] my ey];
    simpl; intros Hx Hy; try discriminate; eexists; reflexivity.
Qed.

Lemma SFleb_refl (x : spec_float) : is_nan x = false -> SFleb x x = true.
Proof.
  unfold SFleb.
  destruct x as [[] | [] | | [] m e]; simpl; intros H; try discriminate;
    try reflexivity;
    rewrite Z.compare_refl, Pos.compare_cont_refl; reflexivity.
Qed.

Lemma SFleb_of_not_ltb (x y : spec_float) :
  is_nan x = false -> is_nan y = false ->
  SFltb x y = false -> SFleb y x = true.
Proof.
  intros Hx Hy. unfold SFltb, SFleb.
  destruct (SFcompare_not_nan x y Hx Hy) as [c Hc].
  rewrite Hc, (SFcompare_antisym x y c Hc).
  destruct c; simpl; intros H; try discriminate; reflexivity.
Qed.

Lemma SFleb_not_nan_r (x y : spec_float) : SFleb x y = true -> is_nan y = false.
Proof.
  unfold SFleb. destruct x as [[] | [] | |], y as [[] | [] | |];
    simpl; intros H; try discriminate; reflexivity.
Qed.

(** A value below zero is not above a non-negative bound. *)
Lemma SFltb_neg_nonneg (x hi : spec_float) :
  SFltb x F64.zero = true -> SFleb F64.zero hi = true -> SFltb hi x = false.
Proof.
  unfold SFltb, SFleb, F64.zero.
  destruct x as [[] | [] | | [] mx ex], hi as [[] | [] | | [] my ey];
    simpl; intros H1 H2; try discriminate; reflexivity.
Qed.

(** The two [if]s the code applies to one coordinate are the clamp of that
    coordinate, and the result is within the bounds. *)
Lemma clamp_axis_within (hi x : F64.t) :
  F64.leb F64.zero hi = true -> is_nan x = false ->
  let x1 := if F64.ltb x F64.zero then F64.zero else x in
  let x2 := if F64.ltb hi x1 then hi else x1 in
  x2 = clamp_axis_spec hi x /\ within F64.zero hi x2 = true.
Proof.
  intros Hhi Hx. unfold clamp_axis_spec, within, F64.ltb, F64.leb in *.
  pose proof (SFleb_not_nan_r _ _ Hhi) as Hnhi.
  destruct (SFltb x F64.zero) eqn:E1; cbn zeta.
  - assert (E2 : SFltb hi F64.zero = false).
    { destruct (SFltb hi F64.zero) eqn:E; [| reflexivity].
      unfold SFltb, SFleb, F64.zero in *.
      destruct hi as [[] | [] | | [] m e]; simpl in *; discriminate. }
    rewrite E2. split; [reflexivity |].
    rewrite Hhi. reflexivity.
  - destruct (SFltb hi x) eqn:E2.
    + split; [reflexivity |].
      rewrite Hhi, SFleb_refl by exact Hnhi. reflexivity.
    + split; [reflexivity |].
      rewrite (SFleb_of_not_ltb x F64.zero Hx eq_refl E1).
      rewrite (SFleb_of_not_ltb hi x Hnhi Hx E2). reflexivity.
Qed.


(** ** Rounding without overflow *)

Lemma digits2_pos_size (p : positive) : digits2_pos p = Pos.size p.
Proof. induction p as [p IH | p IH |]; simpl; rewrite ?IH; reflexivity. Qed.

Lemma Zdigits2_log2 (z : Z) : 0 < z -> Zdigits2 z = Z.log2 z + 1.
Proof.
  destruct z as [| p | p]; try lia. intros _.
  destruct p; simpl; rewrite ?digits2_pos_size; lia.
Qed.

Lemma Zdigits2_nonneg (z : Z) : 0 <= z -> 0 <= Zdigits2 z.
Proof. destruct z; simpl; lia. Qed.

Lemma Zdigits2_le_mono (a b : Z) : 0 <= a <= b -> Zdigits2 a <= Zdigits2 b.
Proof.
  intros [Ha Hab].
  destruct (Z.eq_dec a 0) as [-> | Hne]; [apply Zdigits2_nonneg; lia |].
  rewrite !Zdigits2_log2 by lia.
  pose proof (Z.log2_le_mono a b Hab). lia.
Qed.

Lemma Zdigits2_succ (a : Z) : 0 <= a -> Zdigits2 (a + 1) <= Zdigits2 a + 1.
Proof.
  intros Ha.
  destruct (Z.eq_dec a 0) as [-> | Hne]; [simpl; lia |].
  rewrite !Zdigits2_log2 by lia.
  pose proof (Z.log2_succ_le a). unfold Z.succ in *. lia.
Qed.

Lemma Zdigits2_mul (a b : Z) :
  0 < a -> 0 < b -> Zdigits2 (a * b) <= Zdigits2 a + Zdigits2 b.
Proof.
  intros Ha Hb. rewrite !Zdigits2_log2 by nia.
  pose proof (Z.log2_mul_above a b). lia.
Qed.

Section RoundingRange.
Variables prec emax : Z.

Lemma fexp_le_mono (a b : Z) :
  a <= b -> fexp prec emax a <= fexp prec emax b.
Proof. unfold fexp. lia. Qed.

Lemma shr_1_le (mrs : shr_record) :
  0 <= shr_m mrs -> shr_m (shr_1 mrs) <= shr_m mrs.
Proof.
  destruct mrs as [m r s]. simpl.
  destruct m as [| [p | p |] | p]; simpl; intros H; lia.
Qed.

Lemma iter_pos_shr_1_le (p : positive) (mrs : shr_record) :
  0 <= shr_m mrs -> shr_m (iter_pos shr_1 p mrs) <= shr_m mrs.
Proof.
  revert mrs. induction p as [p IH | p IH |]; intros mrs H; simpl.
  - pose proof (shr_1_nonneg mrs H) as H1.
    pose proof (shr_1_le mrs H).
    pose proof (iter_pos_shr_1_nonneg p _ H1) as H2.
    pose proof (IH _ H1). pose proof (IH _ H2). lia.
  - pose proof (iter_pos_shr_1_nonneg p _ H) as H2.
    pose proof (IH _ H). pose proof (IH _ H2). lia.
  - apply shr_1_le, H.
Qed.

(** The first shift of a rounding: the mantissa does not grow and the new
    exponent is the larger of the old one and the target one. *)
Lemma shr_fexp_bounds (m e : Z) (l : location) :
  0 <= m ->
  0 <= shr_m (fst (shr_fexp prec emax m e l)) <= m /\
  snd (shr_fexp prec emax m e l)
  = Z.max e (fexp prec emax (Zdigits2 m + e)).
Proof.
  intros H. unfold shr_fexp, shr.
  assert (H0 : shr_m (shr_record_of_loc m l) = m) by (destruct l as [| []]; reflexivity).
  destruct (fexp prec emax (Zdigits2 m + e) - e) as [| p | p] eqn:E; simpl.
  - rewrite H0. lia.
  - pose proof (iter_pos_shr_1_nonneg p (shr_record_of_loc m l)).
    pose proof (iter_pos_shr_1_le p (shr_record_of_loc m l)).
    rewrite H0 in *. lia.
  - rewrite H0. lia.
Qed.

Lemma round_nearest_even_le (m : Z) (l : location) :
  round_nearest_even m l <= m + 1.
Proof.
  destruct l as [| []]; simpl; try lia. destruct (Z.even m); lia.
Qed.

(** A sufficient condition for a rounding not to overflow, from a bound [D]
    on the digits of the mantissa and a bound [E] on the exponent. *)
Lemma binary_round_aux_finite (s : bool) (m e : Z) (l : location) (D E : Z) :
  0 <= m -> Zdigits2 m <= D -> e <= E ->
  let E1 := Z.max E (fexp prec emax (D + E)) in
  let E2 := Z.max E1 (fexp prec emax (D + 1 + E1)) in
  E2 <= emax - prec ->
  finite_within (D + 1) E2 (binary_round_aux prec emax s m e l).
Proof.
  intros Hm HD HE E1 E2 Hfit. unfold binary_round_aux.
  destruct (shr_fexp_bounds m e l Hm) as [[B1 B2] B3].
  destruct (shr_fexp prec emax m e l) as [mrs1 e1]. cbn [fst snd] in *.
  set (m1 := round_nearest_even (shr_m mrs1) (loc_of_shr_record mrs1)).
  assert (Hm1 : 0 <= m1) by (apply round_nearest_even_nonneg; exact B1).
  assert (Hm1le : m1 <= m + 1).
  { pose proof (round_nearest_even_le (shr_m mrs1) (loc_of_shr_record mrs1)).
    fold m1 in H. lia. }
  destruct (shr_fexp_bounds m1 e1 loc_Exact Hm1) as [[C1 C2] C3].
  destruct (shr_fexp prec emax m1 e1 loc_Exact) as [mrs2 e2].
  cbn [fst snd] in *.
  assert (Hd1 : Zdigits2 m1 <= D + 1).
  { pose proof (Zdigits2_le_mono m1 (m + 1) (conj Hm1 Hm1le)).
    pose proof (Zdigits2_succ m Hm). lia. }
  assert (He1 : e1 <= E1).
  { subst e1. unfold E1.
    pose proof (fexp_le_mono (Zdigits2 m + e) (D + E)). lia. }
  assert (He2 : e2 <= E2).
  { subst e2. unfold E2.
    pose proof (fexp_le_mono (Zdigits2 m1 + e1) (D + 1 + E1)). lia. }
  destruct (shr_m mrs2) as [| q | q] eqn:Eq; cbn [finite_within].
  - exact I.
  - assert (Hle : (e2 <=? emax - prec) = true) by (apply Z.leb_le; lia).
    rewrite Hle. cbn [finite_within]. split; [| exact He2].
    pose proof (Zdigits2_le_mono (Z.pos q) m1). lia.
  - lia.
Qed.

Lemma digits2_pos_iter_xO (m d : positive) :
  Z.pos (digits2_pos (Pos.iter xO m d)) = Z.pos (digits2_pos m) + Z.pos d.
Proof.
  induction d as [| d IH] using Pos.peano_ind.
  - simpl. lia.
  - rewrite Pos.iter_succ. cbn [digits2_pos]. lia.
Qed.

(** The same for a rounding that first aligns the mantissa. *)
Lemma binary_round_finite (s : bool) (m : positive) (e D E : Z) :
  Zdigits2 (Z.pos m) <= D -> e <= E ->
  let D' := Z.max D prec in
  let E1 := Z.max E (fexp prec emax (D' + E)) in
  let E2 := Z.max E1 (fexp prec emax (D' + 1 + E1)) in
  E2 <= emax - prec ->
  finite_within (D' + 1) E2 (binary_round prec emax s m e).
Proof.
  intros HD HE D' E1 E2 Hfit. unfold binary_round, shl_align.
  set (mu := Z.pos (digits2_pos m) + e).
  assert (Hfexp : mu - prec <= fexp prec emax mu) by (unfold fexp; lia).
  cbn [Zdigits2] in HD.
  destruct (fexp prec emax mu - e) as [| d | d] eqn:Ed;
    apply binary_round_aux_finite; try exact Hfit; try lia;
    cbn [Zdigits2]; try (unfold D'; lia).
  rewrite digits2_pos_iter_xO. unfold D', mu in *. lia.
Qed.

End RoundingRange.

(** A valid double of exponent at most -57 (so below 1/16) converts to a float
    without overflow. *)
Lemma float_of_double_finite (s : bool) (m : positive) (e : Z) :
  bounded F64.prec F64.emax m e = true -> e <= -57 ->
  finite_within 54 2 (float_of_double (S754_finite s m e)).
Proof.
  unfold bounded, canonical_mantissa. intros Hb He.
  apply andb_true_iff in Hb. destruct Hb as [Hc _].
  apply Z.eqb_eq in Hc.
  assert (Hd : Zdigits2 (Z.pos m) <= 53).
  { cbn [Zdigits2]. unfold fexp, F64.prec in Hc. lia. }
  unfold float_of_double.
  apply (binary_round_finite F32.prec F32.emax s m e 53 (-57) Hd He).
  vm_compute. discriminate.
Qed.

(** The product of the scalar speed with such a float does not overflow. *)
Lemma speed_mul_finite (g : Globals) (x : F32.t) :
  finite_within 54 2 x -> is_finite (F32.mul (scalar_speed g) x) = true.
Proof.
  intros Hx. rewrite scalar_speed_value.
  assert (Hs : exists es, -15 <= es <= -14 /\
             (if shiftPressed g then F32.of_Z 350 else F32.of_Z 700)
             = S754_finite false 11468800 es).
  { destruct (shiftPressed g); [exists (-15) | exists (-14)];
      split; try lia; reflexivity. }
  destruct Hs as (es & Hes & ->).
  destruct x as [sx | sx | | sx mx ex]; cbn [finite_within] in Hx;
    try contradiction; [reflexivity |].
  destruct Hx as [Hd He].
  unfold F32.mul, SFmul.
  assert (Hdig : Zdigits2 (Z.pos (11468800 * mx)) <= 78).
  { rewrite Pos2Z.inj_mul.
    pose proof (Zdigits2_mul 11468800 (Z.pos mx)).
    change (Zdigits2 11468800) with 24 in H. lia. }
  pose proof (binary_round_aux_finite F32.prec F32.emax (xorb false sx)
                (Z.pos (11468800 * mx)) (es + ex) loc_Exact 78 (-12)) as H.
  cbv zeta in H.
  assert (Hfit : Z.max (Z.max (-12) (fexp F32.prec F32.emax (78 + -12)))
                   (fexp F32.prec F32.emax
                      (78 + 1 + Z.max (-12) (fexp F32.prec F32.emax (78 + -12))))
                 <= F32.emax - F32.prec) by (vm_compute; discriminate).
  specialize (H ltac:(lia) Hdig ltac:(lia) Hfit).
  destruct (binary_round_aux F32.prec F32.emax (xorb false sx)
              (Z.pos (11468800 * mx)) (es + ex) loc_Exact);
    cbn [finite_within] in H; try contradiction; reflexivity.
Qed.

(** The step of a tick is finite whenever the elapsed time is a valid double
    and not a NaN: the two tests on [dt] keep it at most 0.05. *)
Lemma move_finite (g : Globals) (t : F64.t) :
  is_nan t = false -> valid_binary F64.prec F64.emax t = true ->
  is_finite (move g (clamp_dt t)) = true.
Proof.
  intros Hn Hv. unfold clamp_dt.
  assert (Hc : forall c : F64.t,
             c = targetDt \/ c = lit_0_05 -> is_finite (move g c) = true).
  { intros c [-> | ->]; unfold move; rewrite scalar_speed_value;
      destruct (shiftPressed g); vm_compute; reflexivity. }
  destruct (F64.ltb t lit_1e_9) eqn:E1.
  - replace (F64.ltb lit_0_05 targetDt) with false by (vm_compute; reflexivity).
    apply Hc. left. reflexivity.
  - destruct (F64.ltb lit_0_05 t) eqn:E2; [apply Hc; right; reflexivity |].
    change lit_1e_9 with (S754_finite false 4835703278458517 (-82)) in E1.
    change lit_0_05 with (S754_finite false 7205759403792794 (-57)) in E2.
    unfold F64.ltb, SFltb in E1, E2.
    destruct t as [st | st | | st m e]; try discriminate;
      try (destruct st; discriminate).
    destruct st; [discriminate |].
    cbn [SFcompare] in E2.
    assert (He : e <= -57).
    { destruct (Z.compare_spec (-57) e) as [H | H | H];
        first [lia | discriminate E2]. }
    unfold move. apply speed_mul_finite.
    apply float_of_double_finite; [exact Hv | exact He].
Qed.

Lemma direction_finite (g : Globals) :
  is_finite (fst (direction g)) = true /\ is_finite (snd (direction g)) = true.
Proof.
  unfold direction, gather.
  destruct (key_up g || key_k g), (key_down g || key_j g),
           (key_left g || key_h g), (key_right g || key_l g);
    split; reflexivity.
Qed.

Lemma has_sign_not_nan (s : bool) (x : spec_float) :
  has_sign s x -> is_nan x = false.
Proof. destruct x; simpl; intros H; [reflexivity .. | contradiction | reflexivity]. Qed.

Lemma F32_mul_not_nan (x y : F32.t) :
  is_finite x = true -> is_finite y = true -> is_nan (F32.mul x y) = false.
Proof.
  destruct x as [sx | sx | | sx mx ex], y as [sy | sy | | sy my ey];
    intros Hx Hy; try discriminate; try reflexivity.
  unfold F32.mul, SFmul.
  apply (has_sign_not_nan (xorb sx sy)), binary_round_aux_sign. lia.
Qed.

Lemma double_of_float_not_nan (x : F32.t) :
  is_nan x = false -> is_nan (double_of_float x) = false.
Proof.
  destruct x as [s | s | | s m e]; intros H; try discriminate; try reflexivity.
  apply (has_sign_not_nan s), binary_round_sign.
Qed.

Lemma binary_normalize_not_nan (prec emax m e : Z) (sz : bool) :
  is_nan (binary_normalize prec emax m e sz) = false.
Proof.
  destruct m as [| p | p]; simpl; [reflexivity | |].
  - apply (has_sign_not_nan false), binary_round_sign.
  - apply (has_sign_not_nan true), binary_round_sign.
Qed.

Lemma F64_add_not_nan (x y : F64.t) :
  is_finite x = true -> is_nan y = false -> is_nan (F64.add x y) = false.
Proof.
  destruct x as [sx | sx | | sx mx ex], y as [sy | sy | | sy my ey];
    intros Hx Hy; try discriminate; try reflexivity.
  - destruct sx, sy; reflexivity.
  - unfold F64.add, SFadd. apply binary_normalize_not_nan.
Qed.

(** From a finite position and a finite step, the position before clamping is
    a number on both axes. *)
Lemma integrate_not_nan (g : Globals) (mv : F32.t) (p : F64.t * F64.t) :
  is_finite mv = true -> is_finite (fst p) = true -> is_finite (snd p) = true ->
  is_nan (fst (integrate (direction g) mv p)) = false /\
  is_nan (snd (integrate (direction g) mv p)) = false.
Proof.
  intros Hmv Hx Hy. destruct (direction_finite g) as [Dx Dy].
  unfold integrate. cbn [fst snd].
  split; apply F64_add_not_nan; try assumption;
    apply double_of_float_not_nan, F32_mul_not_nan; assumption.
Qed.

(** An [int] that is not negative converts to a finite double. *)
Lemma of_Z_finite (z : Z) : 0 <= z <= INT_MAX -> is_finite (F64.of_Z z) = true.
Proof.
  unfold INT_MAX. intros Hz. unfold F64.of_Z, binary_normalize.
  destruct z as [| p | p]; [reflexivity | | lia].
  assert (Hd : Zdigits2 (Z.pos p) <= 31).
  { rewrite Zdigits2_log2 by lia.
    assert (Z.log2 (Z.pos p) < 31) by (apply Z.log2_lt_pow2; lia). lia. }
  pose proof (binary_round_finite F64.prec F64.emax false p 0 31 0 Hd
                (Z.le_refl 0)) as H.
  cbv zeta in H.
  assert (Hfit : Z.max (Z.max 0 (fexp F64.prec F64.emax (Z.max 31 F64.prec + 0)))
                   (fexp F64.prec F64.emax
                      (Z.max 31 F64.prec + 1 +
                       Z.max 0 (fexp F64.prec F64.emax (Z.max 31 F64.prec + 0))))
                 <= F64.emax - F64.prec) by (vm_compute; discriminate).
  specialize (H Hfit).
  destruct (binary_round F64.prec F64.emax false p 0);
    cbn [finite_within] in H; try contradiction; reflexivity.
Qed.

(** Clamping a number between zero and a finite bound gives a finite value,
    also when the number is an infinity. *)
Lemma clamp_axis_finite (hi x : F64.t) :
  is_finite hi = true -> F64.leb F64.zero hi = true -> is_nan x = false ->
  is_finite (clamp_axis_spec hi x) = true.
Proof.
  unfold clamp_axis_spec, F64.ltb, F64.leb, SFltb, SFleb, F64.zero.
  destruct x as [[] | [] | | [] mx ex], hi as [[] | [] | | [] mh eh];
    cbn [SFcompare is_finite is_nan]; intros H1 H2 H3;
    try discriminate; try reflexivity;
    repeat match goal with
           | |- context [match ?c with Eq => _ | Lt => _ | Gt => _ end] =>
               destruct c
           end; reflexivity.
Qed.

(** ** Clamping *)

(** C6.  After the clamping step of an enabled tick the position lies within
    [0, screenW - 1] on x and within [0, screenH - 1] on y.  Each axis is
    clamped on its own: a coordinate carried below zero becomes exactly 0, one
    carried above the last pixel becomes exactly that bound, and any other is
    left as it is.  This holds on a screen of at least one pixel in each
    dimension, from a finite position and for an elapsed time that is a
    valid double and not a NaN; the position is then finite again. *)
Theorem clamp_keeps_cursor_on_screen (env : TickEnv) (g : Globals) (s : Loop) :
  enabled g = true ->
  1 <= screenW env <= INT_MAX -> 1 <= screenH env <= INT_MAX ->
  is_finite (px s) = true -> is_finite (py s) = true ->
  is_nan (elapsed env) = false ->
  valid_binary F64.prec F64.emax (elapsed env) = true ->
  let p := integrate (direction g) (move g (clamp_dt (elapsed env)))
                     (px s, py s) in
  let s' := snd (physicsLoop_tick env g s) in
  let xmax := F64.of_Z (screenW env - 1) in
  let ymax := F64.of_Z (screenH env - 1) in
  within F64.zero xmax (px s') = true
  /\ within F64.zero ymax (py s') = true
  /\ px s' = (if F64.ltb (fst p) F64.zero then F64.zero
              else if F64.ltb xmax (fst p) then xmax else fst p)
  /\ py s' = (if F64.ltb (snd p) F64.zero then F64.zero
              else if F64.ltb ymax (snd p) then ymax else snd p)
  /\ is_finite (px s') = true /\ is_finite (py s') = true.
Proof.
  intros He Hw Hh Hpx Hpy Hn Hv p s' xmax ymax.
  destruct (integrate_not_nan g (move g (clamp_dt (elapsed env))) (px s, py s)
              (move_finite g (elapsed env) Hn Hv) Hpx Hpy) as [Hx Hy].
  fold p in Hx, Hy.
  assert (Hxm : F64.leb F64.zero xmax = true) by (apply of_Z_nonneg; lia).
  assert (Hym : F64.leb F64.zero ymax = true) by (apply of_Z_nonneg; lia).
  assert (Fxm : is_finite xmax = true) by (apply of_Z_finite; lia).
  assert (Fym : is_finite ymax = true) by (apply of_Z_finite; lia).
  destruct (clamp_axis_within xmax (fst p) Hxm Hx) as [Ex Wx].
  destruct (clamp_axis_within ymax (snd p) Hym Hy) as [Ey Wy].
  pose proof (clamp_axis_finite xmax (fst p) Fxm Hxm Hx) as Fx.
  pose proof (clamp_axis_finite ymax (snd p) Fym Hym Hy) as Fy.
  assert (Es : s' = mkLoop
                 (if F64.ltb xmax (if F64.ltb (fst p) F64.zero
                                   then F64.zero else fst p)
                  then xmax
                  else if F64.ltb (fst p) F64.zero then F64.zero else fst p)
                 (if F64.ltb ymax (if F64.ltb (snd p) F64.zero
                                   then F64.zero else snd p)
                  then ymax
                  else if F64.ltb (snd p) F64.zero then F64.zero else snd p)
                 (fst (direction g)) (snd (direction g))).
  { unfold s', physicsLoop_tick. rewrite He.
    destruct (click_edges g) as [calls g']. reflexivity. }
  rewrite Es. cbn [px py].
  cbv zeta in Ex, Wx, Ey, Wy.
  rewrite <- Ex in Fx. rewrite <- Ey in Fy.
  unfold clamp_axis_spec in Ex, Ey.
  repeat split; assumption.
Qed.

Lemma clamp_keeps_cursor_on_screen_witness :
  let env := mkTickEnv targetDt None 1920 1080 in
  let s := mkLoop (F64.of_Z 1917) (F64.of_Z 0) F32.zero F32.zero in
  let s' := snd (physicsLoop_tick env right_held_state s) in
  within F64.zero (F64.of_Z 1919) (px s') = true
  /\ within F64.zero (F64.of_Z 1079) (py s') = true
  /\ px s' = F64.of_Z 1919
  /\ py s' = F64.zero
  /\ is_finite (px s') = true /\ is_finite (py s') = true.
Proof.
  apply (clamp_keeps_cursor_on_screen
           (mkTickEnv targetDt None 1920 1080) right_held_state
           (mkLoop (F64.of_Z 1917) (F64.of_Z 0) F32.zero F32.zero));
    first [reflexivity | vm_compute; split; discriminate].
Defined.

(** ** More on the hook *)

(** X1.  Only toggles change the mode: after any sequence of events the mode
    is the initial one, flipped once for every processed down-edge of a toggle
    key in the sequence.  A toggle key that auto-repeats while held therefore
    switches the controller on and off with every repetition. *)
Theorem mode_is_parity_of_toggles (g : Globals) (evs : list KeyEvent) :
  enabled (hook_run g evs)
  = xorb (enabled g) (Nat.odd (length (filter is_toggle evs))).
Proof.
  revert g. induction evs as [| ev rest IH]; intros g; simpl.
  - rewrite xorb_false_r. reflexivity.
  - rewrite IH. destruct (is_toggle ev) eqn:Ht.
    + rewrite (hook_toggle g ev Ht). cbn [fst enabled store_enabled length].
      rewrite Nat.odd_succ, <- Nat.negb_odd.
      destruct (enabled g), (Nat.odd (length (filter is_toggle rest)));
        reflexivity.
    + rewrite (hook_keeps_mode g ev Ht). reflexivity.
Qed.

(** X2.  The hook swallows an event exactly when it is a toggle, or when the
    controller is enabled and the event is processed and its key has a [case]
    in the switch (whether the event is a down-edge, an up-edge or neither).
    So with the controller disabled every event but a toggle reaches the
    other applications, and so does the release of a toggle key. *)
Theorem hook_swallows_iff_toggle_or_bound (g : Globals) (ev : KeyEvent) :
  is_swallowed (snd (LowLevelKeyboardProc g ev))
  = is_toggle ev
    || ((0 <=? nCode ev) && enabled g && is_bound_key (vkCode ev)).
Proof.
  unfold LowLevelKeyboardProc, is_toggle, is_bound_key, bound_keys.
  cbn [existsb].
  destruct (Z.ltb_spec (nCode ev) 0) as [Hn | Hn].
  - replace (0 <=? nCode ev) with false by (symmetry; apply Z.leb_gt; lia).
    reflexivity.
  - replace (0 <=? nCode ev) with true by (symmetry; apply Z.leb_le; lia).
    cbn [andb].
    destruct (isDown ev && ((vkCode ev =? VK_RSHIFT) || (vkCode ev =? VK_CAPITAL)));
      [reflexivity |].
    destruct (enabled g); [| reflexivity].
    cbn [orb andb].
    repeat match goal with
           | |- context [vkCode ev =? ?c] =>
               destruct (vkCode ev =? c); cbn [orb snd is_swallowed];
               try reflexivity
           end.
Qed.

(** X3.  While the controller is enabled, an event the hook hands on leaves
    every global as it was: keys without a [case] are invisible to the
    program. *)
Theorem forwarded_while_enabled_changes_nothing (g : Globals) (ev : KeyEvent) :
  enabled g = true ->
  snd (LowLevelKeyboardProc g ev) = CallNextHookEx ->
  fst (LowLevelKeyboardProc g ev) = g.
Proof.
  intros He. unfold LowLevelKeyboardProc. rewrite He.
  repeat match goal with
         | |- context [if ?c then _ else _] =>
             destruct c; cbn [fst snd]; try discriminate; try reflexivity
         end.
Qed.

Lemma forwarded_while_enabled_changes_nothing_witness :
  fst (LowLevelKeyboardProc held_keys_state (key_down_ev 65)) = held_keys_state.
Proof.
  apply (forwarded_while_enabled_changes_nothing
           held_keys_state (key_down_ev 65)); reflexivity.
Defined.

Lemma track_idempotent (ev : KeyEvent) (store : bool -> Globals -> Globals)
      (g : Globals) :
  (forall a b g0, store a (store b g0) = store a g0) ->
  track ev store (track ev store g) = track ev store g.
Proof.
  intros Hs. unfold track.
  destruct (isDown ev), (isUp ev); rewrite ?Hs; reflexivity.
Qed.

(** X4.  An event that is not a toggle has the same effect delivered twice as
    delivered once: the repeated key-down events of a held key change nothing
    after the first. *)
Theorem repeated_event_changes_nothing (g : Globals) (ev : KeyEvent) :
  is_toggle ev = false ->
  LowLevelKeyboardProc (fst (LowLevelKeyboardProc g ev)) ev
  = LowLevelKeyboardProc g ev.
Proof.
  intros Ht. destruct (Z.lt_ge_cases (nCode ev) 0) as [Hn | Hn].
  - rewrite !hook_ignored by exact Hn. reflexivity.
  - destruct (enabled g) eqn:He.
    + destruct (hook_not_toggle_test ev Hn Ht) as [H1 H2].
      unfold LowLevelKeyboardProc. rewrite H1, H2, He.
      repeat match goal with
             | |- context [if (vkCode ev =? ?c) then _ else _] =>
                 destruct (vkCode ev =? c);
                 [ cbn [fst]; rewrite track_enabled, He by reflexivity;
                   rewrite track_idempotent by reflexivity; reflexivity | ]
             end.
      cbn [fst]. rewrite He. reflexivity.
    + rewrite (hook_disabled g ev Hn Ht He). cbn [fst].
      rewrite (hook_disabled (clear_keys g) ev Hn Ht He). reflexivity.
Qed.

Lemma repeated_event_changes_nothing_witness :
  LowLevelKeyboardProc
    (fst (LowLevelKeyboardProc enabled_idle (key_down_ev VK_LEFT)))
    (key_down_ev VK_LEFT)
  = LowLevelKeyboardProc enabled_idle (key_down_ev VK_LEFT).
Proof.
  apply (repeated_event_changes_nothing enabled_idle (key_down_ev VK_LEFT)).
  reflexivity.
Defined.

(** X5.  Switching the controller back on after at least one other event was
    processed while it was off starts from rest: no movement direction reads
    held, the direction vector is zero and the speed is the full speed,
    whatever was held when the controller went off. *)
Theorem reenabled_starts_at_rest (g : Globals) (ev t : KeyEvent) :
  enabled g = false -> plain_event ev -> is_toggle t = true ->
  let g' := hook_run g [ev; t] in
  enabled g' = true
  /\ (forall d, held d g' = false)
  /\ direction g' = (F32.zero, F32.zero)
  /\ scalar_speed g' = MAX_SPEED_PIX_PER_S.
Proof.
  intros He [Hn Ht] Htog. cbn [hook_run].
  rewrite (hook_disabled g ev Hn Ht He). cbn [fst].
  rewrite (hook_toggle (clear_keys g) t Htog). cbn [fst].
  rewrite clear_keys_enabled, He.
  split; [reflexivity |].
  split; [intros d; destruct d; reflexivity |].
  split; reflexivity.
Qed.

Lemma reenabled_starts_at_rest_witness :
  let g := fst (LowLevelKeyboardProc held_keys_state (key_down_ev VK_CAPITAL)) in
  let g' := hook_run g [key_up_ev VK_CAPITAL; key_down_ev VK_CAPITAL] in
  enabled g' = true
  /\ (forall d, held d g' = false)
  /\ direction g' = (F32.zero, F32.zero)
  /\ scalar_speed g' = MAX_SPEED_PIX_PER_S.
Proof.
  apply (reenabled_starts_at_rest
           (fst (LowLevelKeyboardProc held_keys_state (key_down_ev VK_CAPITAL)))
           (key_up_ev VK_CAPITAL) (key_down_ev VK_CAPITAL)).
  - reflexivity.
  - split; [vm_compute; discriminate | reflexivity].
  - reflexivity.
Defined.

(** ** The two threads and the whole program *)

Lemma track_loop_side ev store g :
  (forall b g0, loop_side (store b g0) = loop_side g0) ->
  loop_side (track ev store g) = loop_side g.
Proof.
  intros Hs. unfold track.
  destruct (isDown ev), (isUp ev); rewrite ?Hs; reflexivity.
Qed.

Lemma hook_keeps_loop_side (g : Globals) (ev : KeyEvent) :
  loop_side (fst (LowLevelKeyboardProc g ev)) = loop_side g.
Proof.
  unfold LowLevelKeyboardProc.
  repeat match goal with
         | |- context [if ?c then _ else _] =>
             destruct c; cbn [fst];
             try reflexivity; try (apply track_loop_side; reflexivity)
         end.
Qed.

Lemma tick_keeps_hook_side (env : TickEnv) (g : Globals) (s : Loop) :
  hook_side (snd (fst (physicsLoop_tick env g s))) = hook_side g.
Proof.
  unfold physicsLoop_tick.
  destruct (enabled g); [reflexivity |].
  destruct (cursorPos env); reflexivity.
Qed.

(** X6.  Each shared flag has one writer.  The hook never writes [g_prevLeft],
    [g_prevRight] or [running]; a step of the program that is an iteration of
    the physics loop never writes a key flag, the mode or [running], and a
    step that is a call of the hook never moves the position. *)
Theorem each_flag_has_one_writer (st : Globals * Loop) (x : Step) :
  let st' := snd (program_step st x) in
  (if is_key_step x
   then loop_side (fst st') = loop_side (fst st) /\ snd st' = snd st
   else hook_side (fst st') = hook_side (fst st)).
Proof.
  destruct st as [g s]. destruct x as [ev | env]; cbn [is_key_step program_step fst snd].
  - split; [apply hook_keeps_loop_side | reflexivity].
  - destruct (running g); cbn [fst snd]; [apply tick_keeps_hook_side | reflexivity].
Qed.

(** The translator keeps the books: what it sends and what it stores agree. *)
Lemma click_edges_balance (g : Globals) (left : bool) :
  (downs left (fst (click_edges g)) + b2n (stored_prev left g))%nat
  = (ups left (fst (click_edges g)) + b2n (stored_prev left (snd (click_edges g))))%nat.
Proof.
  unfold click_edges, downs, ups, stored_prev.
  cbn [fst snd g_prevLeft g_prevRight store_g_prevLeft store_g_prevRight].
  destruct (g_prevLeft g), (g_prevRight g), (leftClickPressed g),
    (rightClickPressed g), left; reflexivity.
Qed.

Lemma stored_prev_loop_side (left : bool) (g g' : Globals) :
  loop_side g' = loop_side g -> stored_prev left g' = stored_prev left g.
Proof.
  unfold loop_side, stored_prev. intros H.
  injection H as H1 H2 _. destruct left; assumption.
Qed.

Lemma program_step_balance (st : Globals * Loop) (x : Step) (left : bool) :
  (downs left (fst (program_step st x)) + b2n (stored_prev left (fst st)))%nat
  = (ups left (fst (program_step st x))
     + b2n (stored_prev left (fst (snd (program_step st x)))))%nat.
Proof.
  destruct st as [g s]. destruct x as [ev | env]; cbn [program_step fst snd].
  - rewrite (stored_prev_loop_side left g _ (hook_keeps_loop_side g ev)).
    reflexivity.
  - destruct (running g); [| reflexivity].
    unfold physicsLoop_tick.
    destruct (enabled g).
    + pose proof (click_edges_balance g left) as H.
      destruct (click_edges g) as [calls g']. cbn [fst snd] in *.
      unfold downs, ups in *. cbn [count_occ].
      destruct (OsCall_eq_dec (SetCursorPos _ _) (sendMouseDown left));
        [discriminate |].
      destruct (OsCall_eq_dec (SetCursorPos _ _) (sendMouseUp left));
        [discriminate |].
      exact H.
    + destruct (cursorPos env); reflexivity.
Qed.

Lemma downs_app (left : bool) (a b : list OsCall) :
  downs left (a ++ b) = (downs left a + downs left b)%nat.
Proof. apply count_occ_app. Qed.

Lemma ups_app (left : bool) (a b : list OsCall) :
  ups left (a ++ b) = (ups left a + ups left b)%nat.
Proof. apply count_occ_app. Qed.

Lemma program_run_balance
      (st : Globals * Loop) (steps : list Step) (left : bool) :
  (downs left (fst (program_run st steps)) + b2n (stored_prev left (fst st)))%nat
  = (ups left (fst (program_run st steps))
     + b2n (stored_prev left (fst (snd (program_run st steps)))))%nat.
Proof.
  revert st. induction steps as [| x rest IH]; intros st; cbn [program_run fst snd].
  - reflexivity.
  - rewrite downs_app, ups_app.
    pose proof (program_step_balance st x left) as H1.
    pose proof (IH (snd (program_step st x))) as H2. lia.
Qed.

Lemma press_release_app (left held : bool) (a b : list OsCall) :
  press_release left held (a ++ b)
  = match press_release left held a with
    | Some held' => press_release left held' b
    | None => None
    end.
Proof.
  revert held. induction a as [| c rest IH]; intros held; cbn [app press_release].
  - reflexivity.
  - destruct c as [x y | d | u]; try apply IH.
    + destruct (Bool.eqb d left); [destruct held |]; try reflexivity; apply IH.
    + destruct (Bool.eqb u left); [destruct held |]; try reflexivity; apply IH.
Qed.

(** The translator presses a button only when it has it up and releases it
    only when it has it down, and stores which of the two it left. *)
Lemma click_edges_press_release (g : Globals) (left : bool) :
  press_release left (stored_prev left g) (fst (click_edges g))
  = Some (stored_prev left (snd (click_edges g))).
Proof.
  unfold click_edges, stored_prev.
  cbn [fst snd g_prevLeft g_prevRight store_g_prevLeft store_g_prevRight].
  destruct (g_prevLeft g), (g_prevRight g), (leftClickPressed g),
    (rightClickPressed g), left; reflexivity.
Qed.

Lemma program_step_press_release (st : Globals * Loop) (x : Step) (left : bool) :
  press_release left (stored_prev left (fst st)) (fst (program_step st x))
  = Some (stored_prev left (fst (snd (program_step st x)))).
Proof.
  destruct st as [g s]. destruct x as [ev | env]; cbn [program_step fst snd].
  - rewrite (stored_prev_loop_side left g _ (hook_keeps_loop_side g ev)).
    reflexivity.
  - destruct (running g); [| reflexivity].
    unfold physicsLoop_tick.
    destruct (enabled g).
    + pose proof (click_edges_press_release g left) as H.
      destruct (click_edges g) as [calls g']. cbn [fst snd] in *.
      cbn [press_release]. exact H.
    + destruct (cursorPos env); reflexivity.
Qed.

Lemma program_run_press_release
      (st : Globals * Loop) (steps : list Step) (left : bool) :
  press_release left (stored_prev left (fst st)) (fst (program_run st steps))
  = Some (stored_prev left (fst (snd (program_run st steps)))).
Proof.
  revert st. induction steps as [| x rest IH]; intros st; cbn [program_run fst snd].
  - reflexivity.
  - rewrite press_release_app, program_step_press_release. apply IH.
Qed.

(** X7.  Over any interleaving of hook calls and loop iterations, from any
    state and for each button: a button-down is only sent while the button is
    recorded as up and a button-up only while it is recorded as down, so the
    downs and ups of a button strictly alternate, and after the run
    [g_prevLeft] / [g_prevRight] tell whether the last event of the button was
    a down.  In numbers: the downs sent, plus one if the button was recorded
    as down at the start, equal the ups sent, plus one if it is recorded as
    down at the end. *)
Theorem button_events_alternate
        (st : Globals * Loop) (steps : list Step) (left : bool) :
  press_release left (stored_prev left (fst st)) (fst (program_run st steps))
  = Some (stored_prev left (fst (snd (program_run st steps))))
  /\
  (downs left (fst (program_run st steps)) + b2n (stored_prev left (fst st)))%nat
  = (ups left (fst (program_run st steps))
     + b2n (stored_prev left (fst (snd (program_run st steps)))))%nat.
Proof.
  split; [apply program_run_press_release | apply program_run_balance].
Qed.

(** X8.  A run of the program that reaches the end of [WinMain] (the message
    loop has ended and the physics thread is joined) has pressed and released
    each button in strict alternation, starting with a press and ending with
    a release: the cleanup releases what the loop left pressed, and no button
    stays down.  When the hook could not be installed nothing was sent. *)
Theorem no_button_left_down_at_exit
        (cursor0 : option (Z * Z)) (sw sh : Z) (steps : list Step) (left : bool) :
  press_release left false (snd (WinMain true cursor0 sw sh steps)) = Some false
  /\ downs left (snd (WinMain true cursor0 sw sh steps))
     = ups left (snd (WinMain true cursor0 sw sh steps))
  /\ snd (WinMain false cursor0 sw sh steps) = [].
Proof.
  unfold WinMain. cbn [snd].
  pose proof (program_run_press_release
                (globals_init, physicsLoop_init cursor0 sw sh) steps left) as Hp.
  pose proof (program_run_balance
                (globals_init, physicsLoop_init cursor0 sw sh) steps left) as Hb.
  cbn [fst] in Hp, Hb.
  set (r := program_run (globals_init, physicsLoop_init cursor0 sw sh) steps) in *.
  replace (stored_prev left globals_init) with false in Hp, Hb
    by (destruct left; reflexivity).
  split; [| split; [| reflexivity]].
  - rewrite press_release_app, Hp.
    unfold WinMain_cleanup, stored_prev. cbn [g_prevLeft g_prevRight store_running].
    destruct (g_prevLeft (fst (snd r))), (g_prevRight (fst (snd r))), left;
      reflexivity.
  - rewrite downs_app, ups_app.
    assert (Hc : downs left (WinMain_cleanup (store_running false (fst (snd r)))) = 0%nat
                 /\ ups left (WinMain_cleanup (store_running false (fst (snd r))))
                    = b2n (stored_prev left (fst (snd r)))).
    { unfold WinMain_cleanup, downs, ups, stored_prev.
      cbn [g_prevLeft g_prevRight store_running].
      destruct (g_prevLeft (fst (snd r))), (g_prevRight (fst (snd r))), left;
        split; reflexivity. }
    destruct Hc as [Hd Hu]. rewrite Hd, Hu. cbn [b2n] in Hb. lia.
Qed.

(** X9.  While the controller is disabled and is not toggled, the program does
    nothing to the system: over any interleaving of hook calls and loop
    iterations no cursor move and no button event is sent, and the controller
    stays disabled. *)
Theorem disabled_program_is_inert (st : Globals * Loop) (steps : list Step) :
  enabled (fst st) = false -> Forall not_a_toggle steps ->
  fst (program_run st steps) = []
  /\ enabled (fst (snd (program_run st steps))) = false.
Proof.
  intros He Hall. revert st He.
  induction Hall as [| x rest Hx _ IH]; intros [g s] He; cbn [program_run fst snd] in *.
  - split; [reflexivity | exact He].
  - assert (H : fst (program_step (g, s) x) = []
                /\ enabled (fst (snd (program_step (g, s) x))) = false).
    { destruct x as [ev | env]; cbn [program_step fst snd not_a_toggle] in *.
      - split; [reflexivity |]. rewrite hook_keeps_mode by exact Hx. exact He.
      - destruct (running g); [| split; [reflexivity | exact He]].
        unfold physicsLoop_tick. rewrite He.
        destruct (cursorPos env); split; try reflexivity; exact He. }
    destruct H as [H1 H2]. rewrite H1.
    destruct (IH _ H2) as [I1 I2]. rewrite I1. split; [reflexivity | exact I2].
Qed.

Lemma disabled_program_is_inert_witness :
  let steps := [KeyStep (key_down_ev VK_UP);
                TickStep (mkTickEnv targetDt (Some (10, 20)) 1920 1080);
                KeyStep (key_down_ev LEFT_CLICK_KEY);
                TickStep (mkTickEnv targetDt None 1920 1080)] in
  let st := (globals_init, physicsLoop_init None 1920 1080) in
  fst (program_run st steps) = []
  /\ enabled (fst (snd (program_run st steps))) = false.
Proof.
  apply (disabled_program_is_inert
           (globals_init, physicsLoop_init None 1920 1080)).
  - reflexivity.
  - repeat constructor.
Defined.

(** ** The elapsed time *)

Lemma SFltb_false_of_leb (x y : spec_float) :
  SFleb x y = true -> SFltb y x = false.
Proof.
  unfold SFleb, SFltb. destruct (SFcompare x y) as [c |] eqn:E; [| discriminate].
  rewrite (SFcompare_antisym x y c E).
  destruct c; simpl; intros H; try discriminate; reflexivity.
Qed.

Lemma clamp_dt_cases (t : F64.t) :
  clamp_dt t = (if F64.ltb t lit_1e_9 then targetDt
                else if F64.ltb lit_0_05 t then lit_0_05 else t).
Proof.
  unfold clamp_dt. destruct (F64.ltb t lit_1e_9); [| reflexivity].
  vm_compute. reflexivity.
Qed.

(** X10.  The two tests on [dt] keep every elapsed time that is a number
    between 1e-9 and 0.05 seconds: a shorter one (also zero, or a negative
    one from a clock that went back) is replaced by the nominal 1/120 s, a
    longer one by 0.05 s.  Applying the tests again changes nothing. *)
Theorem clamp_dt_keeps_dt_in_range (t : F64.t) :
  is_nan t = false ->
  within lit_1e_9 lit_0_05 (clamp_dt t) = true
  /\ clamp_dt t = (if F64.ltb t lit_1e_9 then targetDt
                   else if F64.ltb lit_0_05 t then lit_0_05 else t)
  /\ clamp_dt (clamp_dt t) = clamp_dt t.
Proof.
  intros Hn.
  assert (Hform : clamp_dt t = (if F64.ltb t lit_1e_9 then targetDt
                   else if F64.ltb lit_0_05 t then lit_0_05 else t)).
  { unfold clamp_dt. destruct (F64.ltb t lit_1e_9); [| reflexivity].
    vm_compute. reflexivity. }
  assert (Hin : within lit_1e_9 lit_0_05 (clamp_dt t) = true).
  { rewrite Hform. unfold within, F64.leb, F64.ltb in *.
    destruct (SFltb t lit_1e_9) eqn:E1; [vm_compute; reflexivity |].
    destruct (SFltb lit_0_05 t) eqn:E2; [vm_compute; reflexivity |].
    rewrite (SFleb_of_not_ltb t lit_1e_9 Hn eq_refl E1).
    rewrite (SFleb_of_not_ltb lit_0_05 t eq_refl Hn E2). reflexivity. }
  split; [exact Hin | split; [exact Hform |]].
  unfold within in Hin. apply andb_true_iff in Hin. destruct Hin as [H1 H2].
  unfold clamp_dt at 1. unfold F64.ltb, F64.leb in *.
  rewrite (SFltb_false_of_leb _ _ H1), (SFltb_false_of_leb _ _ H2).
  reflexivity.
Qed.

Lemma clamp_dt_keeps_dt_in_range_witness :
  within lit_1e_9 lit_0_05 (clamp_dt (F64.of_Z 3)) = true
  /\ clamp_dt (F64.of_Z 3) = lit_0_05
  /\ clamp_dt (clamp_dt (F64.of_Z 3)) = clamp_dt (F64.of_Z 3).
Proof.
  apply (clamp_dt_keeps_dt_in_range (F64.of_Z 3)). reflexivity.
Defined.

(** ** Integers as doubles *)

Lemma iter_xO_pow (p k : positive) :
  Z.pos (Pos.iter xO p k) = Z.pos p * 2 ^ Z.pos k.
Proof.
  induction k as [| k IH] using Pos.peano_ind.
  - simpl. lia.
  - rewrite Pos.iter_succ, Pos2Z.inj_xO, IH, Pos2Z.inj_succ, Z.pow_succ_r by lia.
    lia.
Qed.

(** An integer of fewer than 53 bits converts exactly: the mantissa is the
    integer shifted left to 53 bits. *)
Lemma binary_round_int_exact (s : bool) (p k : positive) :
  Z.pos (digits2_pos p) + Z.pos k = 53 ->
  binary_round F64.prec F64.emax s p 0 = S754_finite s (Pos.iter xO p k) (Z.neg k).
Proof.
  intros Hk. unfold binary_round, shl_align.
  assert (H1 : fexp F64.prec F64.emax (Z.pos (digits2_pos p) + 0) = Z.neg k).
  { unfold fexp, emin, F64.prec, F64.emax. lia. }
  rewrite H1. cbn [Z.sub Z.opp Z.add].
  unfold binary_round_aux, shr_fexp. cbn [Zdigits2].
  assert (H2 : fexp F64.prec F64.emax
                 (Z.pos (digits2_pos (Pos.iter xO p k)) + Z.neg k) - Z.neg k = 0).
  { rewrite digits2_pos_iter_xO. unfold fexp, emin, F64.prec, F64.emax. lia. }
  rewrite H2.
  cbn [shr shr_record_of_loc shr_m loc_of_shr_record round_nearest_even Zdigits2].
  rewrite H2. cbn [shr shr_m].
  replace (Z.neg k <=? F64.emax - F64.prec) with true
    by (symmetry; apply Z.leb_le; unfold F64.emax, F64.prec; lia).
  reflexivity.
Qed.

Lemma int_digits_bound (p : positive) :
  Z.pos p <= INT_MAX -> Z.pos (digits2_pos p) <= 31.
Proof.
  unfold INT_MAX. intros H.
  change (Z.pos (digits2_pos p)) with (Zdigits2 (Z.pos p)).
  rewrite Zdigits2_log2 by lia.
  assert (Z.log2 (Z.pos p) < 31) by (apply Z.log2_lt_pow2; lia). lia.
Qed.

Lemma int_shift_exists (p : positive) :
  Z.pos p <= INT_MAX -> exists k, Z.pos (digits2_pos p) + Z.pos k = 53.
Proof.
  intros H. pose proof (int_digits_bound p H).
  exists (Z.to_pos (53 - Z.pos (digits2_pos p))).
  rewrite Z2Pos.id by lia. lia.
Qed.

Lemma lround_shifted (s : bool) (p k : positive) :
  lround (S754_finite s (Pos.iter xO p k) (Z.neg k))
  = if s then - Z.pos p else Z.pos p.
Proof.
  assert (Hpos : 0 < 2 ^ Z.pos k) by (apply Z.pow_pos_nonneg; lia).
  assert (E : (2 * Z.pos (Pos.iter xO p k) + 2 ^ Z.pos k) / (2 * 2 ^ Z.pos k)
              = Z.pos p).
  { rewrite iter_xO_pow.
    symmetry. apply Z.div_unique with (r := 2 ^ Z.pos k); lia. }
  unfold lround. rewrite E. reflexivity.
Qed.

Lemma lround_of_Z (z : Z) :
  Z.abs z <= INT_MAX -> lround (F64.of_Z z) = z.
Proof.
  intros Hz. destruct z as [| p | p]; [reflexivity | |];
    (destruct (int_shift_exists p) as [k Hk]; [lia |]);
    unfold F64.of_Z, binary_normalize;
    rewrite (binary_round_int_exact _ p k Hk), lround_shifted; reflexivity.
Qed.

(** X11.  A pixel coordinate survives the trip through the position: an [int]
    converted to double, as the loop does with the answer of [GetCursorPos],
    and rounded back with [lround], as it does for [SetCursorPos], is the
    same [int]. *)
Theorem lround_of_Z_round_trip (z : Z) :
  Z.abs z <= INT_MAX -> lround (F64.of_Z z) = z.
Proof. apply lround_of_Z. Qed.

Lemma lround_of_Z_round_trip_witness : lround (F64.of_Z (-1279)) = -1279.
Proof. apply (lround_of_Z_round_trip (-1279)). vm_compute. discriminate. Defined.

Lemma digits2_pos_bounds (p : positive) :
  2 ^ (Z.pos (digits2_pos p) - 1) <= Z.pos p < 2 ^ Z.pos (digits2_pos p).
Proof.
  pose proof (Zdigits2_log2 (Z.pos p) ltac:(lia)) as Hd. cbn [Zdigits2] in Hd.
  pose proof (Z.log2_spec (Z.pos p) ltac:(lia)) as Hs.
  rewrite Hd. replace (Z.log2 (Z.pos p) + 1 - 1) with (Z.log2 (Z.pos p)) by lia.
  unfold Z.succ in Hs. exact Hs.
Qed.

(** Two positive integers in their exact binary64 form compare as floats the
    way they compare as integers. *)
Lemma shifted_compare (p q kp kq : positive) :
  Z.pos (digits2_pos p) + Z.pos kp = 53 ->
  Z.pos (digits2_pos q) + Z.pos kq = 53 ->
  match Z.neg kp ?= Z.neg kq with
  | Lt => Lt
  | Gt => Gt
  | Eq => Pos.compare_cont Eq (Pos.iter xO p kp) (Pos.iter xO q kq)
  end = (Z.pos p ?= Z.pos q).
Proof.
  intros Hp Hq.
  pose proof (digits2_pos_bounds p) as Bp.
  pose proof (digits2_pos_bounds q) as Bq.
  destruct (Z.compare_spec (Z.neg kp) (Z.neg kq)) as [E | L | G].
  - assert (kp = kq) by lia. subst kq.
    change (Pos.compare_cont Eq (Pos.iter xO p kp) (Pos.iter xO q kp))
      with (Z.pos (Pos.iter xO p kp) ?= Z.pos (Pos.iter xO q kp)).
    rewrite !iter_xO_pow. symmetry. apply Zmult_compare_compat_r.
    apply Z.lt_gt, Z.pow_pos_nonneg; lia.
  - symmetry. apply Z.compare_lt_iff.
    assert (2 ^ Z.pos (digits2_pos p) <= 2 ^ (Z.pos (digits2_pos q) - 1))
      by (apply Z.pow_le_mono_r; lia).
    lia.
  - symmetry. apply Z.compare_gt_iff.
    assert (2 ^ Z.pos (digits2_pos q) <= 2 ^ (Z.pos (digits2_pos p) - 1))
      by (apply Z.pow_le_mono_r; lia).
    lia.
Qed.

Lemma of_Z_compare (a b : Z) :
  Z.abs a <= INT_MAX -> Z.abs b <= INT_MAX ->
  SFcompare (F64.of_Z a) (F64.of_Z b) = Some (a ?= b).
Proof.
  intros Ha Hb. unfold F64.of_Z, binary_normalize.
  destruct a as [| p | p], b as [| q | q];
    try (destruct (int_shift_exists p) as [kp Hp]; [lia |];
         rewrite (binary_round_int_exact _ p kp Hp));
    try (destruct (int_shift_exists q) as [kq Hq]; [lia |];
         rewrite (binary_round_int_exact _ q kq Hq));
    try reflexivity; cbn [SFcompare]; f_equal.
  - apply shifted_compare; assumption.
  - change (Z.neg p ?= Z.neg q) with (CompOpp (Z.pos p ?= Z.pos q)).
    rewrite <- (shifted_compare p q kp kq Hp Hq).
    destruct (Z.neg kp ?= Z.neg kq); reflexivity.
Qed.

Lemma of_Z_ltb (a b : Z) :
  Z.abs a <= INT_MAX -> Z.abs b <= INT_MAX ->
  F64.ltb (F64.of_Z a) (F64.of_Z b) = (a <? b).
Proof.
  intros Ha Hb. unfold F64.ltb, SFltb, Z.ltb.
  rewrite (of_Z_compare a b Ha Hb). reflexivity.
Qed.

(** On integer coordinates the clamp of the code is the integer clamp. *)
Lemma clamp_axis_of_Z (hi z : Z) :
  0 <= hi <= INT_MAX -> Z.abs z <= INT_MAX ->
  clamp_axis_spec (F64.of_Z hi) (F64.of_Z z) = F64.of_Z (clampZ hi z).
Proof.
  intros Hhi Hz. unfold clamp_axis_spec, clampZ.
  change F64.zero with (F64.of_Z 0).
  rewrite !of_Z_ltb by (unfold INT_MAX in *; lia).
  destruct (Z.ltb_spec z 0); [f_equal; lia |].
  destruct (Z.ltb_spec hi z); f_equal; lia.
Qed.

Lemma add_zero_of_Z (z : Z) (s : bool) :
  Z.abs z <= INT_MAX -> F64.add (F64.of_Z z) (S754_zero s) = F64.of_Z z.
Proof.
  intros Hz. unfold F64.of_Z, binary_normalize.
  destruct z as [| p | p]; [destruct s; reflexivity | |];
    (destruct (int_shift_exists p) as [k Hk]; [lia |]);
    rewrite (binary_round_int_exact _ p k Hk); reflexivity.
Qed.

(** X12.  With the controller enabled and no net direction held, a tick from
    an integer position sets the cursor to that pixel, clamped to the screen,
    and stores it: a cursor on the screen stays exactly where it is, and one
    the mouse left outside the screen (to the left of it or above it, on
    another monitor) is brought to the nearest pixel of the screen. *)
Theorem idle_tick_keeps_pixel
        (env : TickEnv) (g : Globals) (s : Loop) (x y : Z) :
  enabled g = true -> gather g = (F32.zero, F32.zero) ->
  px s = F64.of_Z x -> py s = F64.of_Z y ->
  Z.abs x <= INT_MAX -> Z.abs y <= INT_MAX ->
  1 <= screenW env <= INT_MAX -> 1 <= screenH env <= INT_MAX ->
  is_nan (elapsed env) = false ->
  valid_binary F64.prec F64.emax (elapsed env) = true ->
  let x' := clampZ (screenW env - 1) x in
  let y' := clampZ (screenH env - 1) y in
  fst (fst (physicsLoop_tick env g s)) = SetCursorPos x' y' :: fst (click_edges g)
  /\ px (snd (physicsLoop_tick env g s)) = F64.of_Z x'
  /\ py (snd (physicsLoop_tick env g s)) = F64.of_Z y'.
Proof.
  intros He Hg Hpx Hpy Hx Hy Hw Hh Hn Hv x' y'.
  pose proof (move_finite g (elapsed env) Hn Hv) as Hmv.
  set (mv := move g (clamp_dt (elapsed env))) in *.
  assert (Hd : direction g = (F32.zero, F32.zero)).
  { unfold direction. rewrite Hg. reflexivity. }
  assert (Hz : exists sz, double_of_float (F32.mul F32.zero mv) = S754_zero sz).
  { destruct mv as [sm | sm | | sm mm em]; try discriminate Hmv;
      eexists; reflexivity. }
  destruct Hz as [sz Hz].
  assert (Hint : integrate (direction g) mv (px s, py s)
                 = (F64.of_Z x, F64.of_Z y)).
  { unfold integrate. rewrite Hd. cbn [fst snd].
    rewrite Hz, Hpx, Hpy, !add_zero_of_Z by assumption. reflexivity. }
  assert (Hc : clamp (screenW env) (screenH env) (F64.of_Z x, F64.of_Z y)
               = (F64.of_Z x', F64.of_Z y')).
  { assert (Hwn : F64.leb F64.zero (F64.of_Z (screenW env - 1)) = true)
      by (apply of_Z_nonneg; lia).
    assert (Hhn : F64.leb F64.zero (F64.of_Z (screenH env - 1)) = true)
      by (apply of_Z_nonneg; lia).
    assert (Nx : is_nan (F64.of_Z x) = false)
      by (apply binary_normalize_not_nan).
    assert (Ny : is_nan (F64.of_Z y) = false)
      by (apply binary_normalize_not_nan).
    destruct (clamp_axis_within _ _ Hwn Nx) as [Ex _].
    destruct (clamp_axis_within _ _ Hhn Ny) as [Ey _].
    cbv zeta in Ex, Ey. unfold clamp. cbn [fst snd].
    rewrite Ex, Ey, !clamp_axis_of_Z by (unfold INT_MAX in *; lia).
    reflexivity. }
  unfold physicsLoop_tick. rewrite He. fold mv. rewrite Hint, Hc.
  destruct (click_edges g) as [calls g']. cbn [fst snd px py].
  rewrite !lround_of_Z
    by (unfold x', y', clampZ, INT_MAX in *; lia).
  repeat split; reflexivity.
Qed.

Lemma idle_tick_keeps_pixel_witness :
  let env := mkTickEnv targetDt None 1920 1080 in
  let s := physicsLoop_init (Some (-300, 540)) 1920 1080 in
  fst (fst (physicsLoop_tick env enabled_idle s))
  = SetCursorPos 0 540 :: fst (click_edges enabled_idle)
  /\ px (snd (physicsLoop_tick env enabled_idle s)) = F64.of_Z 0
  /\ py (snd (physicsLoop_tick env enabled_idle s)) = F64.of_Z 540.
Proof.
  apply (idle_tick_keeps_pixel (mkTickEnv targetDt None 1920 1080)
           enabled_idle (physicsLoop_init (Some (-300, 540)) 1920 1080)
           (-300) 540);
    first [reflexivity | vm_compute; discriminate
          | vm_compute; split; discriminate].
Defined.

(** ** The mantissa of a rounded number *)

Lemma shr_1_div2 (mrs : shr_record) :
  0 <= shr_m mrs -> shr_m (shr_1 mrs) = shr_m mrs / 2.
Proof.
  destruct mrs as [m r s]. cbn [shr_m].
  destruct m as [| [p | p |] | p]; intros H; cbn [shr_1 shr_m]; try lia.
  - reflexivity.
  - apply Z.div_unique with (r := 1); lia.
  - apply Z.div_unique with (r := 0); lia.
  - reflexivity.
Qed.

Lemma iter_pos_shr_1_div (p : positive) (mrs : shr_record) :
  0 <= shr_m mrs ->
  shr_m (iter_pos shr_1 p mrs) = shr_m mrs / 2 ^ Z.pos p.
Proof.
  revert mrs. induction p as [p IH | p IH |]; intros mrs H; cbn [iter_pos];
    try (assert (Hp : 0 < 2 ^ Z.pos p) by (apply Z.pow_pos_nonneg; lia)).
  - pose proof (shr_1_nonneg mrs H) as H1.
    pose proof (iter_pos_shr_1_nonneg p _ H1) as H2.
    rewrite (IH _ H2), (IH _ H1), shr_1_div2 by exact H.
    rewrite !Z.div_div by nia.
    f_equal.
    assert (E : Z.pos p~1 = Z.pos p + Z.pos p + 1) by lia.
    rewrite E, !Z.pow_add_r by lia. change (2 ^ 1) with 2. ring.
  - pose proof (iter_pos_shr_1_nonneg p _ H) as H2.
    rewrite (IH _ H2), (IH _ H).
    rewrite !Z.div_div by nia.
    f_equal.
    assert (E : Z.pos p~0 = Z.pos p + Z.pos p) by lia.
    rewrite E, Z.pow_add_r by lia. reflexivity.
  - rewrite shr_1_div2 by exact H. reflexivity.
Qed.

Lemma Zdigits2_div_pow2 (m n : Z) :
  0 <= m -> 0 <= n -> Zdigits2 (m / 2 ^ n) <= Z.max 0 (Zdigits2 m - n).
Proof.
  intros Hm Hn.
  assert (Hp : 0 < 2 ^ n) by (apply Z.pow_pos_nonneg; lia).
  assert (Hq : 0 <= m / 2 ^ n) by (apply Z.div_pos; lia).
  destruct (Z.eq_dec (m / 2 ^ n) 0) as [E | E]; [rewrite E; simpl; lia |].
  assert (Hm0 : 0 < m).
  { destruct (Z.eq_dec m 0) as [-> | ]; [rewrite Z.div_0_l in E; lia | lia]. }
  assert (Hq0 : 0 < m / 2 ^ n).
  { revert Hq E. generalize (m / 2 ^ n). intros q Hq E. lia. }
  assert (Hle : n <= Z.log2 m).
  { apply Z.log2_le_pow2; [exact Hm0 |].
    destruct (Z.lt_ge_cases m (2 ^ n)) as [Hlt | Hge]; [| exact Hge].
    rewrite Z.div_small in E by lia. congruence. }
  rewrite (Zdigits2_log2 m Hm0), (Zdigits2_log2 _ Hq0).
  rewrite <- Z.shiftr_div_pow2 by lia.
  rewrite Z.log2_shiftr by lia. lia.
Qed.

Section RoundedMantissa.
Variables prec emax : Z.
Hypothesis prec_pos : 0 < prec.

(** Whatever is shifted to its target exponent has at most [prec] digits. *)
Lemma shr_fexp_digits (m e : Z) (l : location) :
  0 <= m -> Zdigits2 (shr_m (fst (shr_fexp prec emax m e l))) <= prec.
Proof.
  intros Hm. unfold shr_fexp, shr.
  assert (H0 : shr_m (shr_record_of_loc m l) = m)
    by (destruct l as [| []]; reflexivity).
  assert (Hn : Zdigits2 m - prec <= fexp prec emax (Zdigits2 m + e) - e)
    by (unfold fexp; lia).
  destruct (fexp prec emax (Zdigits2 m + e) - e) as [| p | p];
    cbn [fst]; rewrite ?H0; try lia.
  rewrite iter_pos_shr_1_div, H0 by (rewrite H0; exact Hm).
  pose proof (Zdigits2_div_pow2 m (Z.pos p) Hm ltac:(lia)). lia.
Qed.

Lemma binary_round_aux_digits (s : bool) (m e : Z) (l : location) :
  0 <= m ->
  match binary_round_aux prec emax s m e l with
  | S754_finite _ m' _ => Zdigits2 (Z.pos m') <= prec
  | _ => True
  end.
Proof.
  intros Hm. unfold binary_round_aux.
  pose proof (shr_fexp_nonneg prec emax m e l Hm) as H1.
  destruct (shr_fexp prec emax m e l) as [mrs1 e1]. cbn [fst] in H1.
  set (m1 := round_nearest_even (shr_m mrs1) (loc_of_shr_record mrs1)).
  assert (Hm1 : 0 <= m1) by (apply round_nearest_even_nonneg; exact H1).
  pose proof (shr_fexp_digits m1 e1 loc_Exact Hm1) as H2.
  destruct (shr_fexp prec emax m1 e1 loc_Exact) as [mrs2 e2]. cbn [fst] in H2.
  destruct (shr_m mrs2) as [| q | q]; try exact I.
  destruct (e2 <=? emax - prec); [exact H2 | exact I].
Qed.

Lemma binary_round_digits (s : bool) (m : positive) (e : Z) :
  match binary_round prec emax s m e with
  | S754_finite _ m' _ => Zdigits2 (Z.pos m') <= prec
  | _ => True
  end.
Proof.
  unfold binary_round. destruct (shl_align m e _) as [mz ez].
  apply binary_round_aux_digits. lia.
Qed.

Lemma binary_normalize_digits (m e : Z) (sz : bool) :
  match binary_normalize prec emax m e sz with
  | S754_finite _ m' _ => Zdigits2 (Z.pos m') <= prec
  | _ => True
  end.
Proof.
  destruct m as [| p | p]; cbn [binary_normalize];
    [exact I | apply binary_round_digits ..].
Qed.

End RoundedMantissa.

Lemma F64_prec_pos : 0 < F64.prec.
Proof. reflexivity. Qed.

Lemma of_Z_mantissa_fits (z : Z) : mantissa_fits (F64.of_Z z).
Proof. apply (binary_normalize_digits F64.prec F64.emax F64_prec_pos). Qed.

Lemma double_of_float_mantissa_fits (x : F32.t) :
  mantissa_fits (double_of_float x).
Proof.
  destruct x as [s | s | | s m e]; try exact I.
  apply (binary_round_digits F64.prec F64.emax F64_prec_pos).
Qed.

Lemma F64_add_mantissa_fits (x y : F64.t) :
  mantissa_fits x -> mantissa_fits y -> mantissa_fits (F64.add x y).
Proof.
  intros Hx Hy.
  destruct x as [sx | sx | | sx mx ex], y as [sy | sy | | sy my ey];
    try exact I; try exact Hx; try exact Hy.
  - destruct sx, sy; exact I.
  - destruct sx, sy; exact I.
  - apply (binary_normalize_digits F64.prec F64.emax F64_prec_pos).
Qed.

Lemma short_mantissa_iff (x : F64.t) :
  short_mantissa x <-> is_finite x = true /\ mantissa_fits x.
Proof.
  destruct x as [s | s | | s m e]; cbn [short_mantissa is_finite mantissa_fits];
    intuition discriminate.
Qed.

(** A number of at most 53 bits between zero and the double of an [int]
    rounds to an integer between zero and that [int]. *)
Lemma lround_within (hi : Z) (x : F64.t) :
  0 <= hi <= INT_MAX -> mantissa_fits x ->
  within F64.zero (F64.of_Z hi) x = true ->
  0 <= lround x <= hi.
Proof.
  intros Hhi Hfit Hw. unfold within, F64.leb in Hw.
  apply andb_true_iff in Hw. destruct Hw as [H0 H1].
  destruct x as [s | s | | s m e]; try discriminate H0.
  - cbn [lround]. lia.
  - destruct s; [discriminate H0 |]. exfalso.
    unfold F64.of_Z, binary_normalize in H1.
    destruct hi as [| q | q]; [discriminate H1 | | lia].
    destruct (int_shift_exists q) as [k Hk]; [lia |].
    rewrite (binary_round_int_exact _ q k Hk) in H1. discriminate H1.
  - destruct s; [discriminate H0 |]. clear H0.
    unfold F64.of_Z, binary_normalize in H1.
    destruct hi as [| q | q]; [discriminate H1 | | lia].
    destruct (int_shift_exists q) as [k Hk]; [lia |].
    rewrite (binary_round_int_exact _ q k Hk) in H1.
    unfold SFleb in H1. cbn [SFcompare] in H1.
    cbn [mantissa_fits] in Hfit. unfold F64.prec in Hfit.
    pose proof (digits2_pos_bounds m) as Bm.
    pose proof (digits2_pos_bounds q) as Bq.
    cbn [Zdigits2] in Hfit.
    assert (Hm53 : Z.pos m < 2 ^ 53).
    { assert (2 ^ Z.pos (digits2_pos m) <= 2 ^ 53)
        by (apply Z.pow_le_mono_r; lia). lia. }
    destruct (Z.compare_spec e (Z.neg k)) as [E | L | G];
      [| | discriminate H1].
    + subst e.
      assert (Hle : Z.pos m <= Z.pos (Pos.iter xO q k)).
      { change (Pos.compare_cont Eq m (Pos.iter xO q k))
          with (Z.pos m ?= Z.pos (Pos.iter xO q k)) in H1.
        destruct (Z.compare_spec (Z.pos m) (Z.pos (Pos.iter xO q k)));
          try lia; discriminate H1. }
      rewrite iter_xO_pow in Hle.
      assert (Hp : 0 < 2 ^ Z.pos k) by (apply Z.pow_pos_nonneg; lia).
      unfold lround. split.
      * apply Z.div_pos; lia.
      * apply Z.lt_succ_r, Z.div_lt_upper_bound; [lia |]. nia.
    + destruct e as [| j | j]; try lia.
      assert (Hp : 0 < 2 ^ Z.pos j) by (apply Z.pow_pos_nonneg; lia).
      assert (Hbig : 2 ^ 53 <= 2 ^ Z.pos j * Z.pos q).
      { assert (H53 : 2 ^ 53 <= 2 ^ (Z.pos j + (Z.pos (digits2_pos q) - 1)))
          by (apply Z.pow_le_mono_r; lia).
        rewrite Z.pow_add_r in H53 by lia. nia. }
      unfold lround. split.
      * apply Z.div_pos; lia.
      * apply Z.lt_succ_r, Z.div_lt_upper_bound; [lia |]. nia.
Qed.

(** ** The cursor stays on the screen *)

Lemma of_Z_short_mantissa (z : Z) :
  Z.abs z <= INT_MAX -> short_mantissa (F64.of_Z z).
Proof.
  intros Hz. apply short_mantissa_iff. split; [| apply of_Z_mantissa_fits].
  unfold F64.of_Z, binary_normalize.
  destruct z as [| p | p]; [reflexivity | |];
    (destruct (int_shift_exists p) as [k Hk]; [lia |]);
    rewrite (binary_round_int_exact _ p k Hk); reflexivity.
Qed.

Lemma clamp_axis_mantissa_fits (hi x : F64.t) :
  mantissa_fits hi -> mantissa_fits x -> mantissa_fits (clamp_axis_spec hi x).
Proof.
  intros Hhi Hx. unfold clamp_axis_spec.
  destruct (F64.ltb x F64.zero); [exact I |].
  destruct (F64.ltb hi x); assumption.
Qed.

Lemma click_edges_on_screen (sw sh : Z) (g : Globals) :
  Forall (on_screen sw sh) (fst (click_edges g)).
Proof.
  unfold click_edges. cbn [fst].
  destruct (g_prevLeft g), (g_prevRight g), (leftClickPressed g),
    (rightClickPressed g); repeat constructor.
Qed.

(** One coordinate of an enabled tick: the new value is the clamp of the old
    one plus the step, it is finite with a short mantissa, and it rounds to a
    pixel of the screen. *)
Lemma clamped_axis_on_screen (dim : Z) (p0 step : F64.t) :
  1 <= dim <= INT_MAX -> short_mantissa p0 ->
  is_nan (F64.add p0 step) = false -> mantissa_fits step ->
  let p := F64.add p0 step in
  let x1 := if F64.ltb p F64.zero then F64.zero else p in
  let x2 := if F64.ltb (F64.of_Z (dim - 1)) x1 then F64.of_Z (dim - 1) else x1 in
  short_mantissa x2 /\ 0 <= lround x2 <= dim - 1.
Proof.
  intros Hdim Hp0 Hnan Hstep p x1 x2.
  apply short_mantissa_iff in Hp0. destruct Hp0 as [_ Fp0].
  assert (Hhi : F64.leb F64.zero (F64.of_Z (dim - 1)) = true)
    by (apply of_Z_nonneg; lia).
  assert (Fhi : is_finite (F64.of_Z (dim - 1)) = true)
    by (apply of_Z_finite; lia).
  assert (Fp : mantissa_fits p) by (apply F64_add_mantissa_fits; assumption).
  destruct (clamp_axis_within (F64.of_Z (dim - 1)) p Hhi Hnan) as [E W].
  cbv zeta in E, W. fold x1 in E, W. fold x2 in E, W.
  assert (Fx2 : mantissa_fits x2).
  { rewrite E. apply clamp_axis_mantissa_fits;
      [apply of_Z_mantissa_fits | exact Fp]. }
  split.
  - apply short_mantissa_iff. split; [| exact Fx2].
    rewrite E. apply clamp_axis_finite; assumption.
  - apply lround_within; [lia | exact Fx2 | exact W].
Qed.

(** One iteration keeps the position sound and sets the cursor, when it does,
    to a pixel of the screen. *)
Lemma tick_on_screen (sw sh : Z) (env : TickEnv) (g : Globals) (s : Loop) :
  1 <= sw <= INT_MAX -> 1 <= sh <= INT_MAX ->
  sound_env sw sh env -> sound_position s ->
  Forall (on_screen sw sh) (fst (fst (physicsLoop_tick env g s)))
  /\ sound_position (snd (physicsLoop_tick env g s)).
Proof.
  intros Hw Hh (Hn & Hv & Esw & Esh & Hc) [Sx Sy].
  unfold physicsLoop_tick. destruct (enabled g).
  - rewrite Esw, Esh.
    set (mv := move g (clamp_dt (elapsed env))).
    pose proof (move_finite g (elapsed env) Hn Hv) as Hmv. fold mv in Hmv.
    destruct (integrate_not_nan g mv (px s, py s) Hmv
                (proj1 (proj1 (short_mantissa_iff _) Sx))
                (proj1 (proj1 (short_mantissa_iff _) Sy))) as [Nx Ny].
    unfold integrate in Nx, Ny. cbn [fst snd] in Nx, Ny.
    destruct (clamped_axis_on_screen sw (px s) _ Hw Sx Nx
                (double_of_float_mantissa_fits _)) as [Ax Bx].
    destruct (clamped_axis_on_screen sh (py s) _ Hh Sy Ny
                (double_of_float_mantissa_fits _)) as [Ay By].
    cbv zeta in Ax, Bx, Ay, By.
    unfold clamp, integrate. cbn [fst snd].
    destruct (click_edges g) as [calls g'] eqn:Ec. cbn [fst snd].
    split.
    + constructor; [split; assumption |].
      pose proof (click_edges_on_screen sw sh g) as H. rewrite Ec in H. exact H.
    + split; assumption.
  - destruct (cursorPos env) as [q |]; cbn [fst snd].
    + split; [constructor |].
      split; apply of_Z_short_mantissa; tauto.
    + split; [constructor | split; assumption].
Qed.

Lemma program_run_on_screen
      (sw sh : Z) (st : Globals * Loop) (steps : list Step) :
  1 <= sw <= INT_MAX -> 1 <= sh <= INT_MAX ->
  sound_position (snd st) -> Forall (sound_step sw sh) steps ->
  Forall (on_screen sw sh) (fst (program_run st steps))
  /\ sound_position (snd (snd (program_run st steps))).
Proof.
  intros Hw Hh Hs Hall. revert st Hs.
  induction Hall as [| x rest Hx _ IH]; intros [g s] Hs;
    cbn [program_run fst snd] in *.
  - split; [constructor | exact Hs].
  - assert (H : Forall (on_screen sw sh) (fst (program_step (g, s) x))
                /\ sound_position (snd (snd (program_step (g, s) x)))).
    { destruct x as [ev | env]; cbn [program_step fst snd sound_step] in *.
      - split; [constructor | exact Hs].
      - destruct (running g); cbn [fst snd].
        + apply tick_on_screen; assumption.
        + split; [constructor | exact Hs]. }
    destruct H as [H1 H2]. destruct (IH _ H2) as [I1 I2].
    split; [apply Forall_app; split; assumption | exact I2].
Qed.

(** X13.  Whatever keys are pressed and whenever the loop runs, every
    [SetCursorPos] the program makes is to a pixel of the screen: x within
    0 .. screenW - 1 and y within 0 .. screenH - 1.  This holds for screen
    metrics of at least one pixel that do not change, elapsed times that are
    valid doubles and not NaN, and cursor positions that are [int]s. *)
Theorem cursor_never_leaves_screen
        (cursor0 : option (Z * Z)) (sw sh : Z) (steps : list Step) :
  1 <= sw <= INT_MAX -> 1 <= sh <= INT_MAX ->
  match cursor0 with
  | Some q => Z.abs (fst q) <= INT_MAX /\ Z.abs (snd q) <= INT_MAX
  | None => True
  end ->
  Forall (sound_step sw sh) steps ->
  Forall (on_screen sw sh) (snd (WinMain true cursor0 sw sh steps)).
Proof.
  intros Hw Hh Hc Hall. unfold WinMain. cbn [snd].
  assert (Hs0 : sound_position (physicsLoop_init cursor0 sw sh)).
  { unfold physicsLoop_init, sound_position. cbn [px py].
    destruct cursor0 as [q |]; cbn [fst snd].
    - split; apply of_Z_short_mantissa; tauto.
    - assert (0 <= Z.quot sw 2 <= sw)
        by (split; [apply Z.quot_pos; lia | apply Z.quot_le_upper_bound; lia]).
      assert (0 <= Z.quot sh 2 <= sh)
        by (split; [apply Z.quot_pos; lia | apply Z.quot_le_upper_bound; lia]).
      split; apply of_Z_short_mantissa; lia. }
  destruct (program_run_on_screen sw sh
              (globals_init, physicsLoop_init cursor0 sw sh) steps
              Hw Hh Hs0 Hall) as [H _].
  apply Forall_app. split; [exact H |].
  unfold WinMain_cleanup.
  destruct (g_prevLeft _), (g_prevRight _); repeat constructor.
Qed.

Lemma cursor_never_leaves_screen_witness :
  Forall (on_screen 1920 1080)
    (snd (WinMain true (Some (1919, 0)) 1920 1080
            [KeyStep (key_down_ev VK_CAPITAL);
             KeyStep (key_down_ev VK_RIGHT);
             KeyStep (key_down_ev VK_UP);
             TickStep (mkTickEnv targetDt None 1920 1080);
             TickStep (mkTickEnv lit_0_05 None 1920 1080)])).
Proof.
  apply (cursor_never_leaves_screen (Some (1919, 0)) 1920 1080).
  - vm_compute. split; discriminate.
  - vm_compute. split; discriminate.
  - vm_compute. split; discriminate.
  - repeat constructor; vm_compute; discriminate.
Defined.

(** ** The speed modifier *)

Section ExponentShift.
Variables prec emax : Z.

(** Away from the subnormal range a rounding does not depend on the exponent:
    one less on the way in is one less on the way out. *)
Lemma shr_fexp_shift (m e : Z) (l : location) :
  0 <= m -> emin prec emax + prec <= e - 1 ->
  shr_fexp prec emax m (e - 1) l
  = (fst (shr_fexp prec emax m e l), snd (shr_fexp prec emax m e l) - 1).
Proof.
  intros Hm He. unfold shr_fexp.
  pose proof (Zdigits2_nonneg m Hm) as Hd.
  replace (fexp prec emax (Zdigits2 m + (e - 1)) - (e - 1))
    with (fexp prec emax (Zdigits2 m + e) - e) by (unfold fexp; lia).
  unfold shr.
  destruct (fexp prec emax (Zdigits2 m + e) - e); cbn [fst snd];
    f_equal; lia.
Qed.

Lemma binary_round_aux_shift (s : bool) (m e : Z) (l : location) :
  0 <= m -> emin prec emax + prec <= e - 1 ->
  match binary_round_aux prec emax s m e l with
  | S754_finite s' m' e' =>
      binary_round_aux prec emax s m (e - 1) l = S754_finite s' m' (e' - 1)
  | S754_zero s' => binary_round_aux prec emax s m (e - 1) l = S754_zero s'
  | _ => True
  end.
Proof.
  intros Hm He. unfold binary_round_aux.
  rewrite (shr_fexp_shift m e l Hm He).
  destruct (shr_fexp_bounds prec emax m e l Hm) as [[B1 _] B3].
  destruct (shr_fexp prec emax m e l) as [mrs1 e1]. cbn [fst snd] in *.
  set (m1 := round_nearest_even (shr_m mrs1) (loc_of_shr_record mrs1)).
  assert (Hm1 : 0 <= m1) by (apply round_nearest_even_nonneg; exact B1).
  rewrite (shr_fexp_shift m1 e1 loc_Exact Hm1) by lia.
  destruct (shr_fexp prec emax m1 e1 loc_Exact) as [mrs2 e2]. cbn [fst snd].
  destruct (shr_m mrs2) as [| q | q]; try reflexivity; try exact I.
  destruct (Z.leb_spec e2 (emax - prec)) as [Hle | Hgt]; [| exact I].
  replace (e2 - 1 <=? emax - prec) with true
    by (symmetry; apply Z.leb_le; lia).
  reflexivity.
Qed.

(** The exponent of a rounded number is not below the one given. *)
Lemma binary_round_aux_exp_ge (s : bool) (m e : Z) (l : location) :
  0 <= m ->
  match binary_round_aux prec emax s m e l with
  | S754_finite _ _ e' => e <= e'
  | _ => True
  end.
Proof.
  intros Hm. unfold binary_round_aux.
  destruct (shr_fexp_bounds prec emax m e l Hm) as [[B1 _] B3].
  destruct (shr_fexp prec emax m e l) as [mrs1 e1]. cbn [fst snd] in *.
  set (m1 := round_nearest_even (shr_m mrs1) (loc_of_shr_record mrs1)).
  assert (Hm1 : 0 <= m1) by (apply round_nearest_even_nonneg; exact B1).
  destruct (shr_fexp_bounds prec emax m1 e1 loc_Exact Hm1) as [_ C3].
  destruct (shr_fexp prec emax m1 e1 loc_Exact) as [mrs2 e2]. cbn [fst snd] in *.
  destruct (shr_m mrs2) as [| q | q]; try exact I.
  destruct (e2 <=? emax - prec); [lia | exact I].
Qed.

Lemma binary_round_exp_ge (s : bool) (m : positive) (e : Z) :
  match binary_round prec emax s m e with
  | S754_finite _ _ e' => Z.min e (fexp prec emax (Z.pos (digits2_pos m) + e)) <= e'
  | _ => True
  end.
Proof.
  unfold binary_round, shl_align.
  set (t := fexp prec emax (Z.pos (digits2_pos m) + e)).
  destruct (t - e) as [| d | d] eqn:Ed.
  - pose proof (binary_round_aux_exp_ge s (Z.pos m) e loc_Exact ltac:(lia)) as H.
    destruct (binary_round_aux prec emax s (Z.pos m) e loc_Exact); try exact I. lia.
  - pose proof (binary_round_aux_exp_ge s (Z.pos m) e loc_Exact ltac:(lia)) as H.
    destruct (binary_round_aux prec emax s (Z.pos m) e loc_Exact); try exact I. lia.
  - pose proof (binary_round_aux_exp_ge s (Z.pos (Pos.iter xO m d)) t loc_Exact
                  ltac:(lia)) as H.
    destruct (binary_round_aux prec emax s (Z.pos (Pos.iter xO m d)) t loc_Exact);
      try exact I. lia.
Qed.

End ExponentShift.

(** The step at half speed is exactly half of the step at full speed, for
    every float [x] the elapsed time may convert to. *)
Lemma half_speed_step (x : F32.t) :
  match x with S754_finite _ _ e => -110 <= e | _ => True end ->
  is_finite (F32.mul (F32.of_Z 700) x) = true ->
  F32.mul (F32.of_Z 350) x = exact_half (F32.mul (F32.of_Z 700) x).
Proof.
  intros He Hf.
  change (F32.of_Z 350) with (S754_finite false 11468800 (-15)) in *.
  change (F32.of_Z 700) with (S754_finite false 11468800 (-14)) in *.
  destruct x as [sx | sx | | sx mx ex]; try reflexivity.
  unfold F32.mul, SFmul in *.
  pose proof (binary_round_aux_shift F32.prec F32.emax (xorb false sx)
                (Z.pos (11468800 * mx)) (-14 + ex) loc_Exact ltac:(lia)) as H.
  replace (-14 + ex - 1) with (-15 + ex) in H by lia.
  assert (Hc : emin F32.prec F32.emax + F32.prec <= -15 + ex)
    by (unfold emin, F32.prec, F32.emax; lia).
  specialize (H Hc).
  destruct (binary_round_aux F32.prec F32.emax (xorb false sx)
              (Z.pos (11468800 * mx)) (-14 + ex) loc_Exact);
    try discriminate Hf; exact H.
Qed.

(** X14.  Holding the speed modifier makes the step of a tick exactly half of
    what it is without it: the same mantissa with the exponent one less, for
    every elapsed time that is a valid double and not a NaN. *)
Theorem speed_modifier_halves_the_step (g : Globals) (t : F64.t) :
  is_nan t = false -> valid_binary F64.prec F64.emax t = true ->
  move (store_shiftPressed true g) (clamp_dt t)
  = exact_half (move (store_shiftPressed false g) (clamp_dt t))
  /\ is_finite (move (store_shiftPressed false g) (clamp_dt t)) = true.
Proof.
  intros Hn Hv.
  pose proof (move_finite (store_shiftPressed false g) t Hn Hv) as Hf.
  split; [| exact Hf].
  unfold move in *. rewrite !scalar_speed_value in *.
  cbn [shiftPressed store_shiftPressed] in *.
  apply half_speed_step; [| exact Hf].
  rewrite clamp_dt_cases. clear Hf.
  destruct (F64.ltb t lit_1e_9) eqn:E1; [vm_compute; discriminate |].
  destruct (F64.ltb lit_0_05 t) eqn:E2; [vm_compute; discriminate |].
  change lit_1e_9 with (S754_finite false 4835703278458517 (-82)) in E1.
  unfold F64.ltb, SFltb in E1.
  destruct t as [st | st | | st m e]; try exact I.
  destruct st; [discriminate E1 |].
  cbn [SFcompare] in E1.
  assert (He : -82 <= e).
  { destruct (Z.compare_spec e (-82)) as [H | H | H];
      first [lia | discriminate E1]. }
  unfold float_of_double.
  pose proof (binary_round_exp_ge F32.prec F32.emax false m e) as H.
  destruct (binary_round F32.prec F32.emax false m e); try exact I.
  unfold fexp, emin, F32.prec, F32.emax in H. lia.
Qed.

Lemma speed_modifier_halves_the_step_witness :
  move (store_shiftPressed true right_held_state) (clamp_dt targetDt)
  = exact_half (move (store_shiftPressed false right_held_state)
                  (clamp_dt targetDt))
  /\ is_finite (move (store_shiftPressed false right_held_state)
                  (clamp_dt targetDt)) = true.
Proof.
  apply (speed_modifier_halves_the_step right_held_state targetDt);
    reflexivity.
Defined.
